(** * RagAgent: the hybrid index [semantic_sql_db] of [semantic_sql.py]

    A shallow embedding of the class [semantic_sql_db], which keeps a
    relational table (behind [local_sql_db]) and a vector collection (behind
    [local_semantic_db]) in step, and of its methods [chunk_text_for_insert],
    [insert], [insert_text_in_chunks], [get] and [hybrid_query].

    The two adapters, the sentence splitter and [uuid.uuid4] are imported by
    [semantic_sql.py]; they enter the development as interfaces (type
    classes and section variables).  Python dictionaries handed in by the
    caller live in a heap of dictionary objects, because [insert] writes
    into them. *)

From stdpp Require Import base strings gmap list pretty.
From Stdlib Require Import ZArith Ascii String.

Open Scope string_scope.

(** ** Values, rows, exceptions *)

(** The Python values a column holds: [None], a [str] or an [int]. *)
Inductive value :=
| VNone
| VStr (s : string)
| VInt (z : Z).

#[global] Instance value_eq_dec : EqDecision value.
Proof. solve_decision. Defined.

(** A row is a [dict] from column names to values; a schema is a [dict] from
    column names to their SQL declarations. *)
Abbreviation row := (gmap string value).
Abbreviation schema := (gmap string string).

(** The exceptions the code can end in.  [AdapterError] stands for whatever
    one of the two stores raises; it is passed on unchanged. *)
Inductive exn :=
| ValueError (msg : string)
| KeyError (key : string)
| IndexError
| TypeError
| AdapterError (msg : string).

Inductive outcome (A : Type) :=
| Ok (a : A)
| Raise (e : exn).
Arguments Ok {A} a.
Arguments Raise {A} e.

(** ** The two store adapters *)

(** The filter [{field: {"$in": ids}}] given to the vector store. *)
Inductive where_filter :=
| WhereIn (field : string) (ids : list value).

(** [local_sql_db]: [insert_data(table_name, data)] and [query_data(query,
    params, return_dict_list)].  [query_data] is the call with
    [return_dict_list] left at its default (a list of dictionaries),
    [query_data_tuples] the call with [return_dict_list=False] (a list of
    tuples).  A query reads the store and does not change it, and neither
    call writes into the dictionaries it is handed. *)
Class local_sql_db (Sql : Type) := {
  insert_data : string → list row → Sql → outcome unit * Sql;
  query_data : string → list value → Sql → outcome (list row);
  query_data_tuples : string → list value → Sql → outcome (list (list value))
}.

(** [local_semantic_db]: [batch_insert(texts, metadatas, text_ids)] and
    [query(query_text, top_k, where)]; [R] is the type of one match. *)
Class local_semantic_db (Vec R : Type) := {
  batch_insert : list value → list row → option (list value) → Vec → outcome unit * Vec;
  query : string → Z → where_filter → Vec → outcome (list R)
}.

(** ** Python's [repr] and [str] on the values used in query texts *)

Definition dquote : ascii := ascii_of_nat 34.
Definition squote : ascii := ascii_of_nat 39.
Definition backslash : ascii := ascii_of_nat 92.

Fixpoint has_char (c : ascii) (s : string) : bool :=
  match s with
  | EmptyString => false
  | String a s' => if Ascii.eqb a c then true else has_char c s'
  end.

Definition hex_digit (n : nat) : ascii :=
  if Nat.ltb n 10 then ascii_of_nat (48 + n) else ascii_of_nat (87 + n).

(** One character of [repr(s)], inside the quote [q]. *)
Definition repr_char (q : ascii) (a : ascii) : string :=
  let n := nat_of_ascii a in
  if Ascii.eqb a q || Ascii.eqb a backslash then String backslash (String a EmptyString)
  else if Nat.eqb n 9 then String backslash "t"
  else if Nat.eqb n 10 then String backslash "n"
  else if Nat.eqb n 13 then String backslash "r"
  else if Nat.ltb n 32 || Nat.eqb n 127
       then String backslash (String "x" (String (hex_digit (n / 16)) (String (hex_digit (n mod 16)) EmptyString)))
  else String a EmptyString.

Fixpoint repr_chars (q : ascii) (s : string) : string :=
  match s with
  | EmptyString => EmptyString
  | String a s' => repr_char q a ++ repr_chars q s'
  end.

(** [repr] of a [str]: single quotes, unless the text holds a single quote
    and no double quote. *)
Definition repr_str (s : string) : string :=
  let q := if has_char squote s && negb (has_char dquote s) then dquote else squote in
  String q (repr_chars q s ++ String q EmptyString).

Definition py_repr (v : value) : string :=
  match v with
  | VNone => "None"
  | VStr s => repr_str s
  | VInt z => pretty z
  end.

Fixpoint join (sep : string) (l : list string) : string :=
  match l with
  | [] => EmptyString
  | [x] => x
  | x :: l' => x ++ sep ++ join sep l'
  end.

(** [str(tuple(l))]. *)
Definition str_tuple (l : list value) : string :=
  match l with
  | [x] => "(" ++ py_repr x ++ ",)"
  | _ => "(" ++ join ", " (map py_repr l) ++ ")"
  end.

(** [s.replace(",", "")]. *)
Fixpoint remove_commas (s : string) : string :=
  match s with
  | EmptyString => EmptyString
  | String a s' => if Ascii.eqb a "," then remove_commas s' else String a (remove_commas s')
  end.

(** ** The object and the world it runs in *)

(** The attributes of a [semantic_sql_db] object once [set_table] has bound
    it to a table.  The two adapter objects it owns are part of the world
    below. *)
Record semantic_sql_db := {
  table_name : string;
  unique_id_field : string;
  table_sql_schema : schema;
  semantic_search_field : string
}.

(** A call into one of the stores, as the store sees it. *)
Inductive event :=
| SqlInsert (table : string) (data : list row)
| SqlQuery (q : string) (params : list value) (return_dict_list : bool)
| VecInsert (texts : list value) (metadatas : list row) (text_ids : option (list value))
| VecQuery (query_text : string) (top_k : Z) (filter : where_filter).

(** Dictionary objects are named by their address. *)
Abbreviation loc := nat.

(** The state a method runs in: the dictionary objects reachable from the
    caller ([heap], an address that was never written holds the empty
    dictionary), the state of the two stores, the number of [uuid4()] draws
    made so far, and the calls made into the stores, oldest first. *)
Record world (Sql Vec : Type) := World {
  heap : gmap loc row;
  sql_db : Sql;
  semantic_db : Vec;
  entropy : nat;
  trace : list event
}.
Arguments World {Sql Vec}.
Arguments heap {Sql Vec}.
Arguments sql_db {Sql Vec}.
Arguments semantic_db {Sql Vec}.
Arguments entropy {Sql Vec}.
Arguments trace {Sql Vec}.

(** A method body: it ends in a value or an exception, and in both cases
    leaves a world behind. *)
Definition M (Sql Vec A : Type) : Type := world Sql Vec → outcome A * world Sql Vec.

#[global] Instance M_ret {Sql Vec} : MRet (M Sql Vec) := λ A a w, (Ok a, w).

#[global] Instance M_bind {Sql Vec} : MBind (M Sql Vec) := λ A B f m w,
  match m w with
  | (Ok a, w') => f a w'
  | (Raise e, w') => (Raise e, w')
  end.

Definition raise {Sql Vec A} (e : exn) : M Sql Vec A := λ w, (Raise e, w).

Section semantic_sql.
Context {Sql Vec R : Type} `{!local_sql_db Sql} `{!local_semantic_db Vec R}.

(** [uuid4 n] is [str(uuid.uuid4())] at the [n]-th draw from the entropy
    source; [text_splitter] is the imported sentence splitter. *)
Variable uuid4 : nat → string.
Variable text_splitter : string → Z → list string.

Local Abbreviation M := (M Sql Vec).

(** *** Primitive steps *)

Definition log (e : event) (w : world Sql Vec) : world Sql Vec :=
  World (heap w) (sql_db w) (semantic_db w) (entropy w) (trace w ++ [e]).

(** [str(uuid.uuid4())] *)
Definition new_uuid : M string := λ w,
  (Ok (uuid4 (entropy w)),
   World (heap w) (sql_db w) (semantic_db w) (S (entropy w)) (trace w)).

(** Reading the dictionary object [d]. *)
Definition load (d : loc) : M row := λ w, (Ok (heap w !!! d), w).

(** [d[k] = v] on the dictionary object [d]. *)
Definition set_item (d : loc) (k : string) (v : value) : M unit := λ w,
  (Ok tt,
   World (<[d := <[k := v]> (heap w !!! d)]> (heap w))
         (sql_db w) (semantic_db w) (entropy w) (trace w)).

(** A new dictionary object holding [r]. *)
Definition alloc (r : row) : M loc := λ w,
  let d := fresh (dom (heap w)) in
  (Ok d, World (<[d := r]> (heap w)) (sql_db w) (semantic_db w) (entropy w) (trace w)).

(** [d[k]] on a dictionary value. *)
Definition get_item (d : row) (k : string) : M value :=
  match d !! k with
  | Some v => mret v
  | None => raise (KeyError k)
  end.

(** [self.sql_db.insert_data(table_name=..., data=...)] *)
Definition sql_insert_data (table : string) (data : list row) : M unit := λ w,
  let w1 := log (SqlInsert table data) w in
  let '(r, s') := insert_data table data (sql_db w1) in
  (r, World (heap w1) s' (semantic_db w1) (entropy w1) (trace w1)).

(** [self.sql_db.query_data(q, params)] *)
Definition sql_query_data (q : string) (params : list value) : M (list row) := λ w,
  let w1 := log (SqlQuery q params true) w in
  (query_data q params (sql_db w1), w1).

(** [self.sql_db.query_data(q, return_dict_list=False)] *)
Definition sql_query_data_tuples (q : string) : M (list (list value)) := λ w,
  let w1 := log (SqlQuery q [] false) w in
  (query_data_tuples q [] (sql_db w1), w1).

(** [self.semantic_db.batch_insert(texts=..., metadatas=..., text_ids=...)] *)
Definition semantic_batch_insert (texts : list value) (metadatas : list row)
    (text_ids : option (list value)) : M unit := λ w,
  let w1 := log (VecInsert texts metadatas text_ids) w in
  let '(r, v') := batch_insert texts metadatas text_ids (semantic_db w1) in
  (r, World (heap w1) (sql_db w1) v' (entropy w1) (trace w1)).

(** [self.semantic_db.query(query_text=..., top_k=..., where=...)] *)
Definition semantic_query (query_text : string) (top_k : Z) (filter : where_filter)
    : M (list R) := λ w,
  let w1 := log (VecQuery query_text top_k filter) w in
  (query query_text top_k filter (semantic_db w1), w1).

(** [for d in data: acc.append(f(d))], reading each object when its turn
    comes. *)
Fixpoint load_all (data : list loc) : M (list row) :=
  match data with
  | [] => mret []
  | d :: data' => r ← load d; rs ← load_all data'; mret (r :: rs)
  end.

(** *** [chunk_text_for_insert] (lines 117-123) *)

(** The loop body: [row = eval(repr(metadata))], a fresh copy of the
    metadata, then [row[self.semantic_search_field] = c].  With [metadata]
    left at [None] the copy is [None] and the assignment is a [TypeError]. *)
Fixpoint chunk_rows (self : semantic_sql_db) (metadata : option row) (chunks : list string)
    : M (list loc) :=
  match chunks with
  | [] => mret []
  | c :: chunks' =>
      match metadata with
      | None => raise TypeError
      | Some m =>
          d ← alloc m;
          set_item d (semantic_search_field self) (VStr c);;
          insertable ← chunk_rows self metadata chunks';
          mret (d :: insertable)
      end
  end.

Definition chunk_text_for_insert (self : semantic_sql_db) (text : string)
    (metadata : option row) (max_sentences_per_chunk : Z) : M (list loc) :=
  chunk_rows self metadata (text_splitter text max_sentences_per_chunk).

(** *** [insert] (lines 150-209) *)

(** [all(key in self.table_sql_schema for key in d)] *)
Definition keys_in_schema (self : semantic_sql_db) (d : row) : bool :=
  bool_decide (dom d ⊆ dom (table_sql_schema self)).

(** Lines 151-153, run when [check_validity] is set. *)
Fixpoint check_rows (self : semantic_sql_db) (data : list loc) : M unit :=
  match data with
  | [] => mret tt
  | d :: data' =>
      r ← load d;
      if keys_in_schema self r then check_rows self data'
      else raise (ValueError "data should be a list of dicts with keys that match the table_sql_schema")
  end.

(** [self.unique_id_field not in entry.keys() or entry[self.unique_id_field] is None] *)
Definition lacks_id (self : semantic_sql_db) (entry : row) : bool :=
  match entry !! unique_id_field self with
  | None | Some VNone => true
  | Some _ => false
  end.

(** Lines 159-162: every row of [data] is given a new identity. *)
Fixpoint generate_ids (self : semantic_sql_db) (data : list loc) : M (list value) :=
  match data with
  | [] => mret []
  | d :: data' =>
      uid ← new_uuid;
      set_item d (unique_id_field self) (VStr uid);;
      unique_ids ← generate_ids self data';
      mret (VStr uid :: unique_ids)
  end.

(** Lines 165-166: the identities the rows already carry. *)
Fixpoint supplied_ids (self : semantic_sql_db) (data : list loc) : M (list value) :=
  match data with
  | [] => mret []
  | d :: data' =>
      r ← load d;
      uid ← get_item r (unique_id_field self);
      unique_ids ← supplied_ids self data';
      mret (uid :: unique_ids)
  end.

(** Lines 157-166. *)
Definition assign_ids (self : semantic_sql_db) (data : list loc) : M (list value) :=
  entries ← load_all data;
  unique_ids ← (if existsb (lacks_id self) entries then generate_ids self data else mret []);
  if decide (unique_ids = []) then supplied_ids self data else mret unique_ids.

(** Lines 170-174: the schema's key set against the first row's. *)
Definition fields_were_generated (self : semantic_sql_db) (data : list loc) : M bool :=
  match data with
  | [] => raise IndexError
  | d :: _ =>
      r ← load d;
      mret (bool_decide (dom (table_sql_schema self) ≠ dom r))
  end.

(** Lines 177-182: the text of the query that reads the rows back. *)
Definition reread_query (self : semantic_sql_db) (unique_ids : list value) : string :=
  let ids := if decide (List.length unique_ids = 1) then remove_commas (str_tuple unique_ids)
             else str_tuple unique_ids in
  "SELECT * FROM " ++ table_name self ++ " WHERE " ++ unique_id_field self ++ " IN " ++ ids ++ ";".

(** Lines 189-202: what goes to the vector store for the rows [data].  The
    copies [d_copy] and [d_copy2] are [eval(repr(...))] of dictionaries of
    [None], [str] and [int] values, which gives the same dictionary back.
    [text_ids.append(d[...])] sits in a [try] whose handler does nothing. *)
Fixpoint vector_batch (self : semantic_sql_db) (data : list row)
    : M (list value * list row * list value) :=
  match data with
  | [] => mret ([], [], [])
  | d :: data' =>
      d_copy ← (if lacks_id self d
                then uid ← new_uuid; mret (<[unique_id_field self := VStr uid]> d)
                else mret d);
      semantic_search_value ← get_item d (semantic_search_field self);
      let d_copy2 := delete (semantic_search_field self) d_copy in
      rest ← vector_batch self data';
      let '(texts, metadatas, text_ids) := rest in
      mret (semantic_search_value :: texts,
            d_copy2 :: metadatas,
            match d !! unique_id_field self with
            | Some i => i :: text_ids
            | None => text_ids
            end)
  end.

Definition insert (self : semantic_sql_db) (data : list loc) (check_validity : bool)
    : M (list value) :=
  (if check_validity then check_rows self data else mret tt);;
  unique_ids ← assign_ids self data;
  rows ← load_all data;
  sql_insert_data (table_name self) rows;;
  generated ← fields_were_generated self data;
  data' ← (if (generated : bool) then sql_query_data (reread_query self unique_ids) []
           else mret rows);
  batch ← vector_batch self data';
  let '(texts, metadatas, text_ids) := batch in
  semantic_batch_insert texts metadatas
    (if decide (text_ids = []) then None else Some text_ids);;
  mret unique_ids.

(** *** [insert_text_in_chunks] (lines 213-215) *)

Definition insert_text_in_chunks (self : semantic_sql_db) (text : string)
    (metadata : option row) (max_sentences_per_chunk : Z) (check_validity : bool)
    : M (list value) :=
  data ← chunk_text_for_insert self text metadata max_sentences_per_chunk;
  insert self data check_validity.

(** *** [get] (lines 230-233) *)

(** The argument of [get]: a list, a tuple, or anything else. *)
Inductive id_arg :=
| Scalar (unique_id : value)
| PyList (unique_ids : list value)
| PyTuple (unique_ids : list value).

Definition get (self : semantic_sql_db) (unique_id : id_arg) : M (list row) :=
  match unique_id with
  | Scalar u =>
      sql_query_data
        ("SELECT * FROM " ++ table_name self ++ " WHERE " ++ unique_id_field self ++ " = ?") [u]
  | PyList us | PyTuple us =>
      sql_query_data
        ("SELECT * FROM " ++ table_name self ++ " WHERE " ++ unique_id_field self ++ " in ?") us
  end.

(** *** [hybrid_query] (lines 252-264) *)

(** [for i in ids: ids_list.append(i[0])] *)
Fixpoint first_columns (ids : list (list value)) : M (list value) :=
  match ids with
  | [] => mret []
  | i :: ids' =>
      match i with
      | [] => raise IndexError
      | x :: _ => ids_list ← first_columns ids'; mret (x :: ids_list)
      end
  end.

(** Line 252: the text of the query for the admissible identities. *)
Definition hybrid_select (self : semantic_sql_db) (sql_where : string) : string :=
  "SELECT " ++ unique_id_field self ++ " FROM " ++ table_name self
    ++ " WHERE " ++ sql_where ++ ";".

(** [sql_where] defaults to [None], which cannot be concatenated to a
    [str]. *)
Definition hybrid_query (self : semantic_sql_db) (query_text : string) (top_k : Z)
    (sql_where : option string) : M (list R) :=
  match sql_where with
  | None => raise TypeError
  | Some cond =>
      ids ← sql_query_data_tuples (hybrid_select self cond);
      ids_list ← first_columns ids;
      semantic_query query_text top_k (WhereIn (unique_id_field self) ids_list)
  end.

End semantic_sql.

(** * The chat agent of [ChatAgent.py]

    [ChatAgent] keeps the history of a conversation with a hosted language
    model, counts its tokens, and files the answered questions of the
    history in a [semantic_sql_db] bound to the table [conversations].  The
    OpenAI client and the tokenizer are imported; they enter as an interface
    and a section variable. *)

(** A message is a [dict] written as [{"role": ..., "content": ...}].  Its
    items are kept in insertion order, which is the order [repr] shows. *)
Abbreviation message := (list (string * value)).

(** [m[k]], and [k in m]. *)
Fixpoint item (m : message) (k : string) : option value :=
  match m with
  | [] => None
  | (k', v) :: m' => if String.eqb k' k then Some v else item m' k
  end.

(** [{"role": role, "content": content}] *)
Definition new_message (role : string) (content : value) : message :=
  [("role", VStr role); ("content", content)].

(** [str(v)] *)
Definition py_str (v : value) : string :=
  match v with
  | VStr s => s
  | _ => py_repr v
  end.

(** [repr] of a message and of an optional message. *)
Definition repr_message (m : message) : string :=
  "{" ++ join ", " ((λ kv, repr_str kv.1 ++ ": " ++ py_repr kv.2) <$> m) ++ "}".

Definition repr_entry (m : option message) : string :=
  match m with
  | Some m => repr_message m
  | None => "None"
  end.

(** ** [split_messages_into_pairs] (lines 284-304) *)

(** One element of [pairs]: the list [[temp_system_entry, temp_user_entry,
    entry]], whose first element may be [None]. *)
Definition turn := (option message * message * message)%type.

Definition repr_turn (p : turn) : string :=
  "[" ++ repr_entry p.1.1 ++ ", " ++ repr_message p.1.2 ++ ", " ++ repr_message p.2 ++ "]".

(** The truth value of [temp_user_entry]: not [None] and not empty. *)
Definition truthy (m : option message) : bool :=
  match m with
  | Some (_ :: _) => true
  | _ => false
  end.

(** The loop of lines 294-303, with its two variables. *)
Fixpoint split_loop (messages : list message) (temp_user_entry temp_system_entry : option message)
    : outcome (list turn) :=
  match messages with
  | [] => Ok []
  | entry :: messages' =>
      match item entry "role" with
      | None => Raise (KeyError "role")
      | Some role =>
          if decide (role = VStr "system") then split_loop messages' temp_user_entry (Some entry)
          else if decide (role = VStr "user") then split_loop messages' (Some entry) temp_system_entry
          else match temp_user_entry with
               | Some u =>
                   if bool_decide (role = VStr "assistant") && truthy temp_user_entry
                   then match split_loop messages' None None with
                        | Ok pairs => Ok ((temp_system_entry, u, entry) :: pairs)
                        | Raise e => Raise e
                        end
                   else split_loop messages' temp_user_entry temp_system_entry
               | None => split_loop messages' temp_user_entry temp_system_entry
               end
      end
  end.

Definition split_messages_into_pairs (messages : list message) : outcome (list turn) :=
  split_loop messages None None.

(** ** [extract_messages_content] and [words_in_messages] (lines 140-144) *)

(** [entry['content'] for entry in self.messages if 'content' in entry] *)
Fixpoint contents (messages : list message) : list value :=
  match messages with
  | [] => []
  | entry :: messages' =>
      match item entry "content" with
      | Some c => c :: contents messages'
      | None => contents messages'
      end
  end.

(** The items of [' '.join(...)] must be [str]. *)
Fixpoint strings (items : list value) : outcome (list string) :=
  match items with
  | [] => Ok []
  | VStr s :: items' =>
      match strings items' with
      | Ok l => Ok (s :: l)
      | Raise e => Raise e
      end
  | _ :: _ => Raise TypeError
  end.

Definition extract_messages_content (messages : list message) : outcome string :=
  match strings (contents messages) with
  | Ok l => Ok (join " " l)
  | Raise e => Raise e
  end.

(** [s.split(c)] for a one-character separator: every occurrence cuts. *)
Fixpoint split_at (c : ascii) (s : string) (cur : string) : list string :=
  match s with
  | EmptyString => [cur]
  | String a s' =>
      if Ascii.eqb a c then cur :: split_at c s' EmptyString
      else split_at c s' (cur ++ String a EmptyString)
  end.

Definition words_in_messages (messages : list message) : outcome Z :=
  match extract_messages_content messages with
  | Ok s => Ok (Z.of_nat (List.length (split_at " " s EmptyString)))
  | Raise e => Raise e
  end.

(** ** The agent and its world *)

(** [self.client.chat.completions.create(model=..., messages=...)], read at
    [.choices[0].message.content]: the reply is a [str] or [None]. *)
Class chat_completions (L : Type) := {
  create : string → list message → L → outcome value * L
}.

(** The attributes of a [ChatAgent] the methods below read or write. *)
Record ChatAgent := {
  model : string;
  messages : list message;
  token_limit : Z;
  primary_directive : option string;
  summary_size : option Z
}.

(** The binding [__init__] gives [self.conversation_memory] (lines 87-97). *)
Definition conversations : semantic_sql_db := {|
  table_name := "conversations";
  unique_id_field := "id";
  table_sql_schema :=
    {[ "id" := "TEXT PRIMARY KEY"; "conversation" := "TEXT NOT NULL";
       "created_at" := "DATETIME DEFAULT CURRENT_TIMESTAMP" ]};
  semantic_search_field := "conversation"
|}.

(** What a method of the agent runs in: the agent, the client, the world of
    [self.conversation_memory], what was printed, and the reading of the
    clock ([current_utc_timestamp()]). *)
Record agent_world (L Sql Vec : Type) := AgentWorld {
  agent : ChatAgent;
  client : L;
  memory : world Sql Vec;
  stdout : list string;
  clock : string
}.
Arguments AgentWorld {L Sql Vec}.
Arguments agent {L Sql Vec}.
Arguments client {L Sql Vec}.
Arguments memory {L Sql Vec}.
Arguments stdout {L Sql Vec}.
Arguments clock {L Sql Vec}.

Definition AM (L Sql Vec A : Type) : Type :=
  agent_world L Sql Vec → outcome A * agent_world L Sql Vec.

#[global] Instance AM_ret {L Sql Vec} : MRet (AM L Sql Vec) := λ A a w, (Ok a, w).

#[global] Instance AM_bind {L Sql Vec} : MBind (AM L Sql Vec) := λ A B f m w,
  match m w with
  | (Ok a, w') => f a w'
  | (Raise e, w') => (Raise e, w')
  end.

Section chat_agent.
Context {L Sql Vec R : Type}.
Context `{!chat_completions L} `{!local_sql_db Sql} `{!local_semantic_db Vec R}.

(** [encode s] is [self.enc.encode(s)], which refuses some texts;
    [uuid4] is as above. *)
Variable encode : string → outcome (list Z).
Variable uuid4 : nat → string.

Local Abbreviation AM := (AM L Sql Vec).

Definition throw {A} (e : exn) : AM A := λ w, (Raise e, w).

Definition from_outcome {A} (r : outcome A) : AM A := λ w, (r, w).

Definition get_agent : AM ChatAgent := λ w, (Ok (agent w), w).

Definition set_messages (ms : list message) : AM unit := λ w,
  (Ok tt,
   AgentWorld {| model := model (agent w); messages := ms; token_limit := token_limit (agent w);
                 primary_directive := primary_directive (agent w);
                 summary_size := summary_size (agent w) |}
              (client w) (memory w) (stdout w) (clock w)).

Definition set_directive (p : option string) : AM unit := λ w,
  (Ok tt,
   AgentWorld {| model := model (agent w); messages := messages (agent w);
                 token_limit := token_limit (agent w); primary_directive := p;
                 summary_size := summary_size (agent w) |}
              (client w) (memory w) (stdout w) (clock w)).

(** [self.messages.append(m)] *)
Definition append_message (m : message) : AM unit :=
  a ← get_agent; set_messages (messages a ++ [m])%list.

Definition print (line : string) : AM unit := λ w,
  (Ok tt, AgentWorld (agent w) (client w) (memory w) (stdout w ++ [line])%list (clock w)).

(** A call of [create] on the client. *)
Definition chat (model : string) (ms : list message) : AM value := λ w,
  let '(r, l) := create model ms (client w) in
  (r, AgentWorld (agent w) l (memory w) (stdout w) (clock w)).

(** A method of [self.conversation_memory]. *)
Definition in_memory {A} (m : M Sql Vec A) : AM A := λ w,
  let '(r, mw) := m (memory w) in
  (r, AgentWorld (agent w) (client w) mw (stdout w) (clock w)).

(** ** [set_primary_directive] and [add_context] (lines 117-122, 146-148) *)

(** The truth value of a [str] or [None]. *)
Definition nonempty (p : option string) : bool :=
  match p with
  | Some (String _ _) => true
  | _ => false
  end.

Definition set_primary_directive (system_prompt : option string) : AM unit :=
  a ← get_agent;
  let system_prompt :=
    match system_prompt, primary_directive a with
    | None, Some p => Some p
    | _, _ => system_prompt
    end in
  if nonempty system_prompt
  then append_message (new_message "system" (VStr (default EmptyString system_prompt)));;
       set_directive system_prompt
  else mret tt.

Definition add_context (system_prompt : option string) : AM unit :=
  if nonempty system_prompt
  then append_message (new_message "system" (VStr (default EmptyString system_prompt)))
  else mret tt.

(** ** [count_tokens], [is_within_token_limit], [tokens_left] (lines 124-138) *)

(** [len(self.enc.encode(x))]; the tokenizer takes a [str]. *)
Definition token_count (x : value) : outcome Z :=
  match x with
  | VStr s =>
      match encode s with
      | Ok tokens => Ok (Z.of_nat (List.length tokens))
      | Raise e => Raise e
      end
  | _ => Raise TypeError
  end.

Fixpoint count_loop (ms : list message) (num_tokens : Z) : outcome Z :=
  match ms with
  | [] => Ok num_tokens
  | m :: ms' =>
      match item m "content" with
      | None => Raise (KeyError "content")
      | Some c =>
          match token_count c with
          | Ok n => count_loop ms' (num_tokens + n)
          | Raise e => Raise e
          end
      end
  end.

Definition count_tokens : AM Z :=
  a ← get_agent; from_outcome (count_loop (messages a) 0).

Definition is_within_token_limit (token_limit_arg : option Z) : AM bool :=
  a ← get_agent;
  let limit := default (token_limit a) token_limit_arg in
  current_token_count ← count_tokens;
  mret (bool_decide (current_token_count ≤ limit)%Z).

Definition tokens_left : AM Z :=
  t ← count_tokens; a ← get_agent; mret (token_limit a - t)%Z.

(** ** [side_message] and [summarize_current_conversation] (lines 189-216) *)

Definition side_message (prompt : string) (use_context : bool) : AM value :=
  a ← get_agent;
  let temp_messages := if use_context then messages a else [] in
  chat (model a) (temp_messages ++ [new_message "user" (VStr prompt)])%list.

(** The prompt of lines 209-215, with [in_max_n_words] replaced. *)
Definition summary_prompt (in_max_n_words : string) : string :=
  "
        Summarize the entire conversation we have had in " ++ in_max_n_words ++ "
        words or less. Make a note of key information you learned about 
        the user and what key recomendations you gave to the user or 
        key information you shared with the user.
        ".

Definition summarize_current_conversation (in_max_n_words : option Z) : AM value :=
  a ← get_agent;
  let in_max_n_words :=
    match in_max_n_words with
    | None => summary_size a
    | Some n => Some n
    end in
  side_message (summary_prompt (from_option pretty "None" in_max_n_words)) true.

(** ** [save_current_conversation_to_memory] (lines 306-313) *)

(** The loop of lines 310-312: one new dictionary for each pair. *)
Fixpoint conversation_rows (pairs : list turn) (current_time : string) : M Sql Vec (list loc) :=
  match pairs with
  | [] => mret []
  | p :: pairs' =>
      d ← alloc {[ "conversation" := VStr (repr_turn p); "created_at" := VStr current_time ]};
      data ← conversation_rows pairs' current_time;
      mret (d :: data)
  end.

Definition save_current_conversation_to_memory : AM (list value) :=
  a ← get_agent;
  pairs ← from_outcome (split_messages_into_pairs (messages a));
  current_time ← (λ w, (Ok (clock w), w));
  in_memory (data ← conversation_rows pairs current_time; insert uuid4 conversations data false).

(** ** [refresh_session] (lines 150-158) *)

(** With [summary_size] at [None], line 152 computes
    [self.words_in_messages//2], a bound method divided by an [int]: a
    [TypeError], raised while the argument of the call is evaluated. *)
Definition refresh_session : AM unit :=
  a ← get_agent;
  summary ← match summary_size a with
            | None => throw TypeError
            | Some _ => summarize_current_conversation None
            end;
  save_current_conversation_to_memory;;
  set_messages [];;
  set_primary_directive None;;
  add_context (Some ("The following has been previously discussed ... " ++ py_str summary)).

(** ** [send_message] (lines 161-177) *)

Definition send_message (user_message : string) : AM value :=
  tokens_used_user ← from_outcome (token_count (VStr user_message));
  current_token_count ← count_tokens;
  a ← get_agent;
  print ("CURRENT TOKENS USED: " ++ pretty current_token_count);;
  print ("MAX TOKENS: " ++ pretty (token_limit a));;
  (if bool_decide (current_token_count + tokens_used_user > token_limit a)%Z
   then print "ABOUT TO GO OVER TOKEN LIMIT";;
        refresh_session;;
        print "CONVERSATION WAS REFRESHED"
   else mret tt);;
  append_message (new_message "user" (VStr user_message));;
  a ← get_agent;
  ai_message ← chat (model a) (messages a);
  append_message (new_message "assistant" ai_message);;
  mret ai_message.

End chat_agent.

(** ** Reference adapters

    [local_sql_db.py], [local_semantic_db.py] and [semantic_text_splitter.py]
    are imported by [semantic_sql.py] and are not among the sources.  The
    models below follow sections 4.1 to 4.3 and 4.5 of the specification;
    they instantiate the interfaces above wherever a statement is run on a
    concrete table. *)

Module relational_model.

(** Modelled from the spec: a table of the relational store adapter
    ([local_sql_db] is missing): its column declarations, as given to
    [create_table], and its records, oldest first. *)
Record table := Table {
  declared : schema;
  records : list row
}.

Abbreviation store := (gmap string table).

Definition contains (needle hay : string) : bool :=
  match String.index 0 needle hay with
  | Some _ => true
  | None => false
  end.

Definition is_key (decl : string) : bool := contains "PRIMARY KEY" decl.
Definition is_required (decl : string) : bool :=
  contains "NOT NULL" decl || contains "PRIMARY KEY" decl.

(** What the store writes into a column the inserted row leaves out. *)
Definition default_of (decl : string) : value :=
  if contains "DEFAULT" decl then VStr "CURRENT_TIMESTAMP" else VNone.

Definition complete (cols : schema) (r : row) : row :=
  map_imap (λ c decl, Some (default (default_of decl) (r !! c))) cols.

(** Modelled from the spec: [create_table(name, schema)] of the missing
    adapter, an idempotent creation: an existing table is left as it is. *)
Definition create_table (name : string) (cols : schema) (s : store) : store :=
  match s !! name with
  | Some _ => s
  | None => <[name := Table cols []]> s
  end.

Definition violates_required (cols : schema) (r : row) : bool :=
  bool_decide (∃ c decl, cols !! c = Some decl ∧ is_required decl = true ∧ r !! c = Some VNone).

Definition collides (cols : schema) (old : list row) (r : row) : bool :=
  bool_decide (∃ c decl, cols !! c = Some decl ∧ is_key decl = true
                         ∧ Exists (λ o, o !! c = r !! c) old).

(** One row of a bulk insert: its keys must be columns, required columns
    must end up non-null, and a key value must be new. *)
Definition insert_row (cols : schema) (old : list row) (r : row) : outcome (list row) :=
  if negb (bool_decide (dom r ⊆ dom cols)) then Raise (AdapterError "no such column")
  else let r' := complete cols r in
       if violates_required cols r' then Raise (AdapterError "NOT NULL constraint failed")
       else if collides cols old r' then Raise (AdapterError "UNIQUE constraint failed")
       else Ok (old ++ [r'])%list.

Fixpoint insert_rows (cols : schema) (old : list row) (data : list row) : outcome (list row) :=
  match data with
  | [] => Ok old
  | r :: data' =>
      match insert_row cols old r with
      | Ok old' => insert_rows cols old' data'
      | Raise e => Raise e
      end
  end.

(** Modelled from the spec: [insert_data(table_name, data)] of the missing
    adapter, the bulk insert of section 4.2: all rows or none, failing on an
    identity collision or a missing required column. *)
Definition model_insert_data (name : string) (data : list row) (s : store)
    : outcome unit * store :=
  match s !! name with
  | None => (Raise (AdapterError "no such table"), s)
  | Some t =>
      match insert_rows (declared t) (records t) data with
      | Ok rs => (Ok tt, <[name := Table (declared t) rs]> s)
      | Raise e => (Raise e, s)
      end
  end.

(** *** The query texts the model answers *)

Fixpoint strip_prefix (p s : string) : option string :=
  match p, s with
  | EmptyString, _ => Some s
  | String a p', String b s' => if Ascii.eqb a b then strip_prefix p' s' else None
  | String _ _, EmptyString => None
  end.

Definition strip_suffix (p s : string) : option string :=
  let n := String.length s - String.length p in
  if String.eqb (String.substring n (String.length p) s) p && Nat.leb (String.length p) (String.length s)
  then Some (String.substring 0 n s) else None.

Fixpoint digits_value (s : string) (acc : Z) : option Z :=
  match s with
  | EmptyString => Some acc
  | String a s' =>
      let n := nat_of_ascii a in
      if Nat.leb 48 n && Nat.leb n 57 then digits_value s' (10 * acc + Z.of_nat (n - 48))
      else None
  end.

(** A literal of a query text: a text in single quotes or a number. *)
Definition literal (s : string) : option value :=
  match s with
  | EmptyString => None
  | String a s' =>
      if Ascii.eqb a squote
      then match strip_suffix (String squote EmptyString) s' with
           | Some body => if has_char squote body then None else Some (VStr body)
           | None => None
           end
      else VInt <$> digits_value s 0
  end.

(** The items of a parenthesised list, split at the commas outside quotes. *)
Fixpoint items (s : string) (in_quote : bool) (cur : string) : list string :=
  match s with
  | EmptyString => [cur]
  | String a s' =>
      if in_quote then items s' (negb (Ascii.eqb a squote)) (cur ++ String a EmptyString)
      else if Ascii.eqb a "," then cur :: items s' false EmptyString
      else if Ascii.eqb a " " then items s' false cur
      else items s' (Ascii.eqb a squote) (cur ++ String a EmptyString)
  end.

Fixpoint literals (l : list string) : option (list value) :=
  match l with
  | [] => Some []
  | x :: l' => v ← literal x; vs ← literals l'; Some (v :: vs)
  end.

Definition literal_list (s : string) : option (list value) :=
  body ← strip_prefix "(" s ≫= strip_suffix ")";
  if String.eqb body EmptyString then Some [] else literals (items body false EmptyString).

(** The tables and columns a query text can name. *)
Definition targets (s : store) : list (string * table * string) :=
  '(name, t) ← map_to_list s; c ← elements (dom (declared t)); [(name, t, c)].

Definition first_some {A B} (f : A → option B) (l : list A) : option B :=
  list_find (λ o, is_Some o) (f <$> l) ≫= snd.

(** [SELECT * FROM t WHERE f IN (v1, ..., vn);] *)
Definition select_in (q : string) (s : store) : option (outcome (list row)) :=
  first_some (λ '(name, t, f),
    rest ← strip_prefix ("SELECT * FROM " ++ name ++ " WHERE " ++ f ++ " IN ") q;
    body ← strip_suffix ";" rest;
    Some match literal_list body with
         | Some vs => Ok (filter (λ r, Exists (λ v, r !! f = Some v) vs) (records t))
         | None => Raise (AdapterError "syntax error")
         end) (targets s).

(** [SELECT * FROM t WHERE f = ?], one bind parameter for the one
    placeholder. *)
Definition select_eq (q : string) (params : list value) (s : store)
    : option (outcome (list row)) :=
  first_some (λ '(name, t, f),
    if String.eqb q ("SELECT * FROM " ++ name ++ " WHERE " ++ f ++ " = ?")
    then Some match params with
              | [v] => Ok (filter (λ r, r !! f = Some v) (records t))
              | _ => Raise (AdapterError "Incorrect number of bindings supplied")
              end
    else None) (targets s).

(** [SELECT f FROM t WHERE c = literal;] *)
Definition select_column (q : string) (s : store) : option (outcome (list (list value))) :=
  first_some (λ '(name, t, f),
    cond ← strip_prefix ("SELECT " ++ f ++ " FROM " ++ name ++ " WHERE ") q ≫= strip_suffix ";";
    first_some (λ c,
      lit ← strip_prefix (c ++ " = ") cond;
      v ← literal lit;
      Some (Ok ((λ r, [default VNone (r !! f)]) <$> filter (λ r, r !! c = Some v) (records t))))
      (elements (dom (declared t)))) (targets s).

(** The [?] placeholders of a query text, those inside quotes apart. *)
Fixpoint placeholders (s : string) (in_quote : bool) : nat :=
  match s with
  | EmptyString => 0
  | String a s' =>
      if in_quote then placeholders s' (negb (Ascii.eqb a squote))
      else if Ascii.eqb a "?" then S (placeholders s' false)
      else placeholders s' (Ascii.eqb a squote)
  end.

(** Modelled from the spec: [query_data(query, params)] of the missing
    adapter, the read-only filtered query of section 4.2 with its bind
    parameters, one for each [?] placeholder of the text.  The model answers
    the two texts that select whole rows: membership of a column in a list
    of literals, and equality of a column with the bind parameter.  Any
    other text is a syntax error. *)
Definition model_query_data (q : string) (params : list value) (s : store)
    : outcome (list row) :=
  if negb (Nat.eqb (placeholders q false) (List.length params))
  then Raise (AdapterError "Incorrect number of bindings supplied")
  else match select_eq q params s with
       | Some r => r
       | None =>
           match select_in q s with
           | Some r => r
           | None => Raise (AdapterError "syntax error")
           end
       end.

(** Modelled from the spec: [query_data(query, return_dict_list=False)] of
    the missing adapter: one column of the rows a comparison of a column
    with a literal selects, as one-element tuples. *)
Definition model_query_data_tuples (q : string) (params : list value) (s : store)
    : outcome (list (list value)) :=
  match params, select_column q s with
  | [], Some r => r
  | _, _ => Raise (AdapterError "syntax error")
  end.

#[global] Instance adapter : local_sql_db store := {
  insert_data := model_insert_data;
  query_data := model_query_data;
  query_data_tuples := model_query_data_tuples
}.

End relational_model.

Module vector_model.

(** Modelled from the spec: an entry of the vector store adapter
    ([local_semantic_db] is missing): the identity, the embedded text and
    the metadata of section 6. *)
Record entry := Entry {
  entry_id : value;
  entry_text : value;
  entry_metadata : row
}.

Abbreviation collection := (list entry).

Fixpoint zip3 (ids texts : list value) (metadatas : list row) : collection :=
  match ids, texts, metadatas with
  | i :: ids', t :: texts', m :: metadatas' => Entry i t m :: zip3 ids' texts' metadatas'
  | _, _, _ => []
  end.

(** Identities of the adapter's own, for a batch that brings none. *)
Definition own_ids (start n : nat) : list value :=
  (λ k, VStr ("auto-" ++ pretty (start + k))) <$> seq 0 n.

(** Modelled from the spec: [batch_insert(texts, metadatas, text_ids)] of
    the missing adapter (section 4.3): each text is stored with its metadata
    and identity; without [text_ids] the adapter makes up identities; lists
    of different lengths are refused. *)
Definition model_batch_insert (texts : list value) (metadatas : list row)
    (text_ids : option (list value)) (c : collection) : outcome unit * collection :=
  let ids := default (own_ids (List.length c) (List.length texts)) text_ids in
  if bool_decide (List.length texts = List.length metadatas ∧ List.length texts = List.length ids)
  then (Ok tt, (c ++ zip3 ids texts metadatas)%list)
  else (Raise (AdapterError "texts, metadatas and ids differ in length"), c).

Definition admits (filter : where_filter) (e : entry) : bool :=
  match filter with
  | WhereIn field ids => bool_decide (Exists (λ v, entry_metadata e !! field = Some v) ids)
  end.

(** Modelled from the spec: [query(query_text, top_k, where)] of the missing
    adapter (section 4.3): at most [top_k] of the entries the metadata
    filter admits.  Similarity is not modelled: the entries come in the
    order they were stored. *)
Definition model_query (query_text : string) (top_k : Z) (filter : where_filter)
    (c : collection) : outcome (list entry) :=
  Ok (take (Z.to_nat top_k) (List.filter (admits filter) c)).

#[global] Instance adapter : local_semantic_db collection entry := {
  batch_insert := model_batch_insert;
  query := model_query
}.

End vector_model.

Module chunker_model.

Definition terminal (a : ascii) : bool :=
  Ascii.eqb a "." || Ascii.eqb a "!" || Ascii.eqb a "?".

(** The sentences of a text: each ends with its terminal punctuation, blanks
    between sentences are dropped, and a tail without punctuation is a
    sentence of its own. *)
Fixpoint sentences (s : string) (cur : string) : list string :=
  match s with
  | EmptyString => if String.eqb cur EmptyString then [] else [cur]
  | String a s' =>
      if terminal a then (cur ++ String a EmptyString) :: sentences s' EmptyString
      else if Ascii.eqb a " " && String.eqb cur EmptyString then sentences s' cur
      else sentences s' (cur ++ String a EmptyString)
  end.

(** Groups of at most [n] consecutive sentences, each joined by a blank. *)
Fixpoint groups (fuel n : nat) (l : list string) : list string :=
  match fuel, l with
  | _, [] | O, _ => []
  | S fuel', _ => join " " (take n l) :: groups fuel' n (drop n l)
  end.

(** Modelled from the spec: the sentence splitter of section 4.1
    ([semantic_text_splitter] is missing): the text is cut at terminal
    punctuation and consecutive sentences are grouped, at most
    [max_sentences_per_chunk] to a segment (at least one). *)
Definition model_text_splitter (text : string) (max_sentences_per_chunk : Z) : list string :=
  let l := sentences text EmptyString in
  groups (List.length l) (Nat.max 1 (Z.to_nat max_sentences_per_chunk)) l.

End chunker_model.

(** Modelled from the spec: the identity generator of section 4.5
    ([uuid.uuid4] is a library call): the text of the [n]-th draw, here the
    number of the draw. *)
Definition model_uuid4 (n : nat) : string := "uuid-" ++ pretty n.

(** ** A bound index and a few rows, for running the methods *)

Definition documents_schema : schema :=
  {[ "id" := "TEXT PRIMARY KEY"; "text" := "TEXT NOT NULL"; "tag" := "TEXT" ]}.

Definition documents : semantic_sql_db := {|
  table_name := "documents";
  unique_id_field := "id";
  table_sql_schema := documents_schema;
  semantic_search_field := "text"
|}.

Definition notes_schema : schema :=
  {[ "id" := "TEXT PRIMARY KEY"; "text" := "TEXT NOT NULL" ]}.

Definition notes : semantic_sql_db := {|
  table_name := "notes";
  unique_id_field := "id";
  table_sql_schema := notes_schema;
  semantic_search_field := "text"
|}.

Definition articles_schema : schema :=
  {[ "id" := "TEXT PRIMARY KEY"; "text" := "TEXT NOT NULL";
     "created_at" := "DATETIME DEFAULT CURRENT_TIMESTAMP" ]}.

Definition articles : semantic_sql_db := {|
  table_name := "articles";
  unique_id_field := "id";
  table_sql_schema := articles_schema;
  semantic_search_field := "text"
|}.

Definition sports_row : row := {[ "text" := VStr "A about sports"; "tag" := VStr "sports" ]}.
Definition cooking_row : row := {[ "text" := VStr "B about cooking"; "tag" := VStr "cooking" ]}.
Definition keyed_sports_row : row := <["id" := VStr "a"]> sports_row.
Definition stray_row : row := {[ "text" := VStr "x"; "colour" := VStr "red" ]}.
Definition bare_row : row := {[ "text" := VStr "x" ]}.
Definition loaded_metadata : row :=
  {[ "id" := VStr "k1"; "text" := VStr "mine"; "tag" := VStr "x" ]}.

Abbreviation model_world := (world relational_model.store vector_model.collection).

(** The world after [set_table] on an empty database: the table exists and
    is empty, the collection is empty, and the caller holds [objects]. *)
Definition bound_world (self : semantic_sql_db) (objects : list row) : model_world :=
  World (list_to_map (zip (seq 0 (List.length objects)) objects))
        (relational_model.create_table (table_name self) (table_sql_schema self) ∅)
        [] 0 [].

Definition model_insert := insert (R := vector_model.entry) model_uuid4.
Definition model_get := get (Vec := vector_model.collection).
Definition model_hybrid_query := hybrid_query (Sql := relational_model.store).
Definition model_insert_text_in_chunks :=
  insert_text_in_chunks (R := vector_model.entry) model_uuid4 chunker_model.model_text_splitter.

(** The documents table after the two rows of the scenario of section 8
    were inserted without identities. *)
Definition stocked_world : model_world :=
  (model_insert documents [0; 1] true (bound_world documents [sports_row; cooking_row])).2.

(** A row with the identity ["a"] and a row without one, in one list. *)
Definition mixed_world : model_world :=
  bound_world documents [keyed_sports_row; cooking_row].

Definition mixed_world_after : model_world :=
  (model_insert documents [0; 1] false mixed_world).2.

(** One row without an identity for the articles table, whose [created_at]
    column the store fills in. *)
Definition article_world : model_world := bound_world articles [bare_row].

Definition article_world_after : model_world :=
  (model_insert articles [0] false article_world).2.

(** Two rows for the articles table that come with their identities, the
    first identity with a backslash in it; neither row gives [created_at],
    so [insert] reads them back. *)
Definition slashed_row : row := {[ "id" := VStr "a\b"; "text" := VStr "x" ]}.
Definition plain_row : row := {[ "id" := VStr "c"; "text" := VStr "y" ]}.

Definition slashed_world : model_world := bound_world articles [slashed_row; plain_row].

Definition slashed_world_after : model_world :=
  (model_insert articles [0; 1] false slashed_world).2.

(** One such row whose identity holds a comma. *)
Definition comma_row : row := {[ "id" := VStr "a,b"; "text" := VStr "x" ]}.

Definition comma_world : model_world := bound_world articles [comma_row].

Definition comma_world_after : model_world :=
  (model_insert articles [0] false comma_world).2.

(** A row with a column the documents table does not have, handed to
    [insert] without the validity check. *)
Definition stray_world : model_world := bound_world documents [stray_row].

Definition stray_world_after : model_world :=
  (model_insert documents [0] false stray_world).2.

(** A hybrid query on the stocked documents table. *)
Definition stocked_query : outcome (list vector_model.entry) * model_world :=
  model_hybrid_query documents "ball games" 1 (Some "tag = 'sports'") stocked_world.

(** An index whose semantic column may be left out, and two rows with an
    identity, the second without a text. *)
Definition memos_schema : schema := {[ "id" := "TEXT PRIMARY KEY"; "text" := "TEXT" ]}.

Definition memos : semantic_sql_db := {|
  table_name := "memos";
  unique_id_field := "id";
  table_sql_schema := memos_schema;
  semantic_search_field := "text"
|}.

Definition memo_row : row := {[ "id" := VStr "m0"; "text" := VStr "hello" ]}.
Definition blank_memo_row : row := {[ "id" := VStr "m1" ]}.
Definition memo_world : model_world := bound_world memos [memo_row; blank_memo_row].

(** A vector store that is out of service: it refuses every call.  The
    documents table is bound on it, and the caller holds one complete
    row. *)
Definition offline_vector_store : local_semantic_db unit vector_model.entry := {|
  batch_insert := λ _ _ _ v, (Raise (AdapterError "vector store offline"), v);
  query := λ _ _ _ _, Raise (AdapterError "vector store offline")
|}.

Definition complete_sports_row : row :=
  {[ "id" := VStr "a"; "text" := VStr "A about sports"; "tag" := VStr "sports" ]}.

Definition offline_world : world relational_model.store unit :=
  World {[ 0 := complete_sports_row ]}
        (relational_model.create_table "documents" documents_schema ∅) tt 0 [].

Definition offline_insert : outcome (list value) * world relational_model.store unit :=
  insert (local_semantic_db0 := offline_vector_store) model_uuid4 documents [0] false
         offline_world.

(** ** A chat agent, for running its methods *)

(** A stand-in for the chat completions service: it answers every request
    with the number of messages it was sent, and counts the requests it
    served. *)
Module counting_model.

Definition model_create (model : string) (ms : list message) (served : nat)
    : outcome value * nat :=
  (Ok (VStr ("reply to " ++ pretty (List.length ms) ++ " messages")), S served).

#[global] Instance adapter : chat_completions nat := { create := model_create }.

End counting_model.

(** A stand-in for the tokenizer: one token for each character. *)
Definition char_tokens (s : string) : outcome (list Z) :=
  Ok ((λ a, Z.of_nat (nat_of_ascii a)) <$> list_ascii_of_string s).

Abbreviation model_agent_world :=
  (agent_world nat relational_model.store vector_model.collection).

(** An agent on a new, empty conversation memory. *)
Definition agent_with (ms : list message) (limit : Z) (directive : option string)
    (size : option Z) : model_agent_world :=
  AgentWorld {| model := "gpt-3.5-turbo"; messages := ms; token_limit := limit;
                primary_directive := directive; summary_size := size |}
             0 (bound_world conversations []) [] "2024-05-01 12:00:00".

Definition directive_message : message := new_message "system" (VStr "Be brief.").
Definition question_message : message := new_message "user" (VStr "hi").
Definition answer_message : message := new_message "assistant" (VStr "hello").

Definition greeting_history : list message :=
  [directive_message; question_message; answer_message].

Definition greeting_turn : turn := (Some directive_message, question_message, answer_message).

Definition model_send_message :=
  send_message (R := vector_model.entry) char_tokens model_uuid4.
Definition model_save :=
  save_current_conversation_to_memory (L := nat) (R := vector_model.entry) model_uuid4.
Definition model_refresh_session :=
  refresh_session (R := vector_model.entry) model_uuid4.

(** The greeting in four agents: over the limit without and with a summary
    size, well within the limit, and one that has only its directive. *)
Definition crowded_agent : model_agent_world :=
  agent_with greeting_history 10 (Some "Be brief.") None.
Definition summarising_agent : model_agent_world :=
  agent_with greeting_history 10 (Some "Be brief.") (Some 50%Z).
Definition roomy_agent : model_agent_world :=
  agent_with greeting_history 4096 (Some "Be brief.") None.
Definition new_agent : model_agent_world :=
  agent_with [directive_message] 10 (Some "Be brief.") (Some 50%Z).

(** A history in which one message has no content. *)
Definition gappy_agent : model_agent_world :=
  agent_with [question_message; [("role", VStr "system")]] 4096 None None.

(** ** Notions for the statements about the chat agent *)

Definition has_role (r : string) (m : message) : Prop := item m "role" = Some (VStr r).

(** A pair as [split_messages_into_pairs] is documented to return it: a
    user entry, the assistant entry that answers it, and a system entry or
    [None]. *)
Definition well_formed_turn (p : turn) : Prop :=
  (∀ m, p.1.1 = Some m → has_role "system" m)
  ∧ has_role "user" p.1.2 ∧ has_role "assistant" p.2.

(** The messages of a pair, in the order of the conversation. *)
Definition turn_messages (p : turn) : list message :=
  (option_list p.1.1 ++ [p.1.2; p.2])%list.

(** The number of pieces [s.split(" ")] cuts [s] into. *)
Definition pieces (s : string) : nat := List.length (split_at " " s EmptyString).

(** The dictionary [save_current_conversation_to_memory] builds for a
    pair, and the messages [refresh_session] starts the new history with. *)
Definition conversation_row (current_time : string) (p : turn) : row :=
  {[ "conversation" := VStr (repr_turn p); "created_at" := VStr current_time ]}.

Definition directive_messages (a : ChatAgent) : list message :=
  if nonempty (primary_directive a)
  then [new_message "system" (VStr (default EmptyString (primary_directive a)))]
  else [].

(** * Properties *)

(** [VNone] is what a missing column reads as under [!!!]. *)
#[global] Instance value_inhabited : Inhabited value := populate VNone.

Definition is_sql_query (e : event) : bool :=
  match e with
  | SqlQuery _ _ _ => true
  | _ => false
  end.

Definition is_vector_query (e : event) : bool :=
  match e with
  | VecQuery _ _ _ => true
  | _ => false
  end.

Definition is_vector_insert (e : event) : bool :=
  match e with
  | VecInsert _ _ _ => true
  | _ => false
  end.

(** The calls made into the stores between the worlds [w] and [w']. *)
Definition calls_since {Sql Vec} (w w' : world Sql Vec) : list event :=
  drop (List.length (trace w)) (trace w').

(** The calls a successful [insert] makes, in order: the bulk write, the
    read-back when the first row's keys are not the schema's, the batch for
    the vector store. *)
Definition insert_calls (self : semantic_sql_db) (rows : list row) (ids : list value)
    (generated : bool) (texts : list value) (metadatas : list row) (text_ids : list value)
    : list event :=
  (SqlInsert (table_name self) rows
   :: (if generated then [SqlQuery (reread_query self ids) [] true] else [])
   ++ [VecInsert texts metadatas (if decide (text_ids = []) then None else Some text_ids)])%list.


Set Default Proof Using "Type*".

Section properties.
Context {Sql Vec R : Type} `{!local_sql_db Sql} `{!local_semantic_db Vec R}.
Variable uuid4 : nat → string.
Implicit Types (self : semantic_sql_db) (w : world Sql Vec) (d : loc) (data : list loc).

(** ** The monad *)

Lemma bind_Ok {A B} (m : M Sql Vec A) (f : A → M Sql Vec B) w b w' :
  (m ≫= f) w = (Ok b, w') ↔ ∃ a w1, m w = (Ok a, w1) ∧ f a w1 = (Ok b, w').
Proof.
  unfold mbind, M_bind. split.
  - destruct (m w) as [[a|e] w1]; [eauto | discriminate].
  - intros (a & w1 & -> & Hf). exact Hf.
Qed.

Lemma bind_Raise_l {A B} (m : M Sql Vec A) (f : A → M Sql Vec B) w e w' :
  m w = (Raise e, w') → (m ≫= f) w = (Raise e, w').
Proof. unfold mbind, M_bind. by intros ->. Qed.

Lemma bind_Ok_l {A B} (m : M Sql Vec A) (f : A → M Sql Vec B) w a w1 :
  m w = (Ok a, w1) → (m ≫= f) w = f a w1.
Proof. unfold mbind, M_bind. by intros ->. Qed.

Lemma load_all_eq data w : load_all data w = (Ok ((heap w !!!.) <$> data), w).
Proof.
  induction data as [|d data IH]; [done|].
  cbn [load_all]. rewrite (bind_Ok_l _ _ w (heap w !!! d) w) by done.
  by rewrite (bind_Ok_l _ _ w _ w IH).
Qed.

(** ** Validation (lines 150-153) *)

Lemma check_rows_Ok self data w :
  Forall (λ d, keys_in_schema self (heap w !!! d) = true) data →
  check_rows self data w = (Ok tt, w).
Proof.
  induction 1 as [|d data Hd _ IH]; [done|].
  cbn [check_rows]. rewrite (bind_Ok_l _ _ w (heap w !!! d) w) by done.
  by rewrite Hd.
Qed.

Lemma check_rows_Raise self data w :
  Exists (λ d, keys_in_schema self (heap w !!! d) = false) data →
  ∃ msg, check_rows self data w = (Raise (ValueError msg), w).
Proof.
  induction data as [|d data IH]; intros Hex; [by apply Exists_nil in Hex|].
  cbn [check_rows]. rewrite (bind_Ok_l _ _ w (heap w !!! d) w) by done.
  destruct (keys_in_schema self (heap w !!! d)) eqn:Hd.
  - apply IH. apply Exists_cons in Hex as [Hex|Hex]; [congruence|done].
  - eexists. reflexivity.
Qed.

(** C6. When some row of [data] has a key that is not a column of the bound
    schema, [insert] with [check_validity] set raises the [ValueError] of
    line 153 (the validation error of the specification) and leaves the
    world as it found it: no call reached either store, no dictionary was
    written, no identity was drawn. *)
Theorem insert_rejects_unknown_key self data w :
  (∃ d k, d ∈ data ∧ k ∈ dom (heap w !!! d) ∧ k ∉ dom (table_sql_schema self)) →
  ∃ msg, insert uuid4 self data true w = (Raise (ValueError msg), w).
Proof.
  intros (d & k & Hd & Hk & Hnk).
  destruct (check_rows_Raise self data w) as [msg Hmsg].
  { apply Exists_exists. exists d. split; [done|].
    unfold keys_in_schema. apply bool_decide_eq_false. set_solver. }
  exists msg. unfold insert. by apply bind_Raise_l.
Qed.

(** ** Identities (lines 156-166) *)

Lemma generate_ids_spec self data w :
  ∃ h', generate_ids uuid4 self data w
        = (Ok ((λ n, VStr (uuid4 n)) <$> seq (entropy w) (List.length data)),
           World h' (sql_db w) (semantic_db w) (entropy w + List.length data) (trace w))
      ∧ (∀ d, d ∉ data → h' !!! d = heap w !!! d)
      ∧ (∀ d, d ∈ data → ∃ j, data !! j = Some d ∧
           h' !!! d = <[unique_id_field self := VStr (uuid4 (entropy w + j))]> (heap w !!! d)).
Proof.
  revert w. induction data as [|d0 data IH]; intros w.
  - exists (heap w). cbn. rewrite Nat.add_0_r. destruct w; cbn.
    split_and!; [done|done|]. intros d Hd. by apply elem_of_nil in Hd.
  - set (u := VStr (uuid4 (entropy w))).
    set (w1 := World (<[d0 := <[unique_id_field self := u]> (heap w !!! d0)]> (heap w))
                     (sql_db w) (semantic_db w) (S (entropy w)) (trace w)).
    destruct (IH w1) as (h' & Hrun & Hout & Hin). exists h'. split_and!.
    + cbn [generate_ids]. unfold mbind at 1, M_bind, new_uuid.
      unfold mbind at 1, M_bind, set_item. cbn [heap sql_db semantic_db entropy trace].
      fold u. fold w1. rewrite (bind_Ok_l _ _ _ _ _ Hrun). cbn.
      by rewrite Nat.add_succ_r.
    + intros d Hd. apply not_elem_of_cons in Hd as [Hne Hd].
      rewrite (Hout d Hd). cbn. by rewrite lookup_total_insert_ne.
    + intros d Hd. destruct (decide (d ∈ data)) as [Hd'|Hd'].
      * destruct (Hin d Hd') as (j & Hj & ->). exists (S j). split; [done|].
        cbn [entropy heap w1]. rewrite Nat.add_succ_r. cbn.
        destruct (decide (d0 = d)) as [->|Hne].
        -- by rewrite lookup_total_insert_eq, insert_insert_eq.
        -- by rewrite lookup_total_insert_ne.
      * apply elem_of_cons in Hd as [->|Hd]; [|done]. exists 0. split; [done|].
        rewrite (Hout d0 Hd'). cbn. rewrite lookup_total_insert_eq.
        by rewrite Nat.add_0_r.
Qed.

Lemma supplied_ids_spec self data w :
  Forall (λ d, lacks_id self (heap w !!! d) = false) data →
  supplied_ids self data w = (Ok ((λ d, (heap w !!! d) !!! unique_id_field self) <$> data), w).
Proof.
  induction 1 as [|d data Hd _ IH]; [reflexivity|].
  cbn [supplied_ids]. rewrite (bind_Ok_l _ _ w (heap w !!! d) w) by done.
  unfold lacks_id in Hd. unfold get_item.
  destruct ((heap w !!! d) !! unique_id_field self) as [v|] eqn:Hv; [|done].
  rewrite (bind_Ok_l _ _ w v w) by done.
  rewrite (bind_Ok_l _ _ w _ w IH). cbn.
  by rewrite (lookup_total_correct _ _ _ Hv).
Qed.

Lemma lacks_id_insert self (r : row) u :
  lacks_id self (<[unique_id_field self := VStr u]> r) = false.
Proof. unfold lacks_id. by rewrite lookup_insert_eq. Qed.

(** What [assign_ids] does, in its two cases: no row lacks an identity and
    nothing changes, or some row does and every row is given a new one. *)
Lemma assign_ids_spec self data w :
  ∃ ids h' n,
    assign_ids uuid4 self data w
      = (Ok ids, World h' (sql_db w) (semantic_db w) n (trace w))
    ∧ List.length ids = List.length data
    ∧ Forall (λ d, lacks_id self (h' !!! d) = false) data
    ∧ (∀ d, d ∉ data → h' !!! d = heap w !!! d)
    ∧ ((Forall (λ d, lacks_id self (heap w !!! d) = false) data
        ∧ h' = heap w ∧ n = entropy w
        ∧ ids = (λ d, (heap w !!! d) !!! unique_id_field self) <$> data)
       ∨ (Exists (λ d, lacks_id self (heap w !!! d) = true) data
          ∧ ids = (λ k, VStr (uuid4 k)) <$> seq (entropy w) (List.length data)
          ∧ ∀ d, d ∈ data → ∃ j, data !! j = Some d ∧
              h' !!! d = <[unique_id_field self := VStr (uuid4 (entropy w + j))]>
                           (heap w !!! d))).
Proof.
  unfold assign_ids. rewrite (bind_Ok_l _ _ w _ w (load_all_eq data w)).
  destruct (existsb (lacks_id self) ((heap w !!!.) <$> data)) eqn:Hany.
  - apply existsb_exists in Hany as (r & Hr & Hlacks).
    apply list_elem_of_In, list_elem_of_fmap in Hr as (d & -> & Hd).
    destruct (generate_ids_spec self data w) as (h' & Hrun & Hout & Hin).
    rewrite (bind_Ok_l _ _ _ _ _ Hrun).
    destruct data as [|d0 data]; [by apply elem_of_nil in Hd|].
    rewrite decide_False by done.
    eexists _, h', _. split_and!; [done| |  |done|].
    + by rewrite length_fmap, length_seq.
    + apply Forall_forall. intros d' Hd'. destruct (Hin d' Hd') as (j & _ & ->).
      apply lacks_id_insert.
    + right. split_and!; [|done|done]. apply Exists_exists. eauto.
  - assert (Forall (λ d, lacks_id self (heap w !!! d) = false) data) as Hall.
    { apply Forall_forall. intros d Hd. apply not_true_is_false. intros Hl.
      assert (existsb (lacks_id self) ((heap w !!!.) <$> data) = true) as Hex; [|congruence].
      apply existsb_exists. exists (heap w !!! d). split; [|done].
      apply list_elem_of_In, list_elem_of_fmap. eauto. }
    rewrite (bind_Ok_l _ _ w [] w) by done. rewrite decide_True by done.
    rewrite (supplied_ids_spec self data w Hall).
    eexists _, (heap w), (entropy w). split_and!.
    + by destruct w.
    + by rewrite length_fmap.
    + done.
    + done.
    + left. done.
Qed.

(** ** The vector batch (lines 185-205) *)

(** The loop draws identities at most: it calls neither store and writes no
    dictionary of the caller. *)
Lemma vector_batch_frame self (recs : list row) w res w' :
  vector_batch uuid4 self recs w = (res, w') →
  heap w' = heap w ∧ sql_db w' = sql_db w ∧ semantic_db w' = semantic_db w
  ∧ trace w' = trace w.
Proof.
  revert w res w'. induction recs as [|x recs IH]; intros w res w' Hrun.
  - by injection Hrun as <- <-.
  - cbn [vector_batch] in Hrun. unfold mbind at 1, M_bind in Hrun.
    destruct (lacks_id self x).
    + unfold mbind at 1, M_bind, new_uuid in Hrun. cbn in Hrun.
      unfold mbind at 1, M_bind, get_item in Hrun.
      destruct (x !! semantic_search_field self); cbn in Hrun.
      * unfold mbind at 1, M_bind in Hrun.
        destruct (vector_batch uuid4 self recs _) as [[[[? ?] ?]|e] w1] eqn:Hrest;
          apply IH in Hrest; injection Hrun as <- <-; apply Hrest.
      * by injection Hrun as <- <-.
    + cbn in Hrun. unfold mbind at 1, M_bind, get_item in Hrun.
      destruct (x !! semantic_search_field self); cbn in Hrun.
      * unfold mbind at 1, M_bind in Hrun.
        destruct (vector_batch uuid4 self recs _) as [[[[? ?] ?]|e] w1] eqn:Hrest;
          apply IH in Hrest; injection Hrun as <- <-; apply Hrest.
      * by injection Hrun as <- <-.
Qed.

(** On rows that all carry an identity the loop draws nothing, and its three
    lists are the semantic values, the rows without the semantic field, and
    the identities. *)
Lemma vector_batch_Ok self (recs : list row) w out w' :
  Forall (λ x : row, lacks_id self x = false) recs →
  vector_batch uuid4 self recs w = (Ok out, w') →
  w' = w
  ∧ Forall (λ x : row, is_Some (x !! semantic_search_field self)
                         ∧ is_Some (x !! unique_id_field self)) recs
  ∧ out = ((.!!! semantic_search_field self) <$> recs,
           delete (semantic_search_field self) <$> recs,
           (.!!! unique_id_field self) <$> recs).
Proof.
  intros Hids. revert out w'. induction Hids as [|x recs Hd _ IH]; intros out w' Hrun.
  - by injection Hrun as <- <-.
  - cbn [vector_batch] in Hrun. rewrite Hd in Hrun.
    unfold mbind at 1, M_bind in Hrun. cbn in Hrun.
    unfold mbind at 1, M_bind, get_item in Hrun.
    destruct (x !! semantic_search_field self) as [t|] eqn:Ht; cbn in Hrun; [|done].
    unfold mbind at 1, M_bind in Hrun.
    destruct (vector_batch uuid4 self recs w) as [[[[texts metas] tids]|e] w1] eqn:Hrest;
      [|done].
    destruct (IH _ _ eq_refl) as (-> & Hall & [= -> -> ->]).
    unfold lacks_id in Hd.
    destruct (x !! unique_id_field self) as [i|] eqn:Hi; [|done].
    injection Hrun as <- <-. split_and!; [done| |].
    + constructor; [|done]. rewrite Ht, Hi. eauto.
    + cbn. by rewrite (lookup_total_correct _ _ _ Ht), (lookup_total_correct _ _ _ Hi).
Qed.

(** ** [insert] as a whole *)

Lemma check_rows_frame self data w r w' : check_rows self data w = (r, w') → w' = w.
Proof.
  induction data as [|d data IH]; cbn [check_rows]; intros Hrun.
  - by injection Hrun as <- <-.
  - rewrite (bind_Ok_l _ _ w (heap w !!! d) w) in Hrun by done.
    destruct (keys_in_schema self (heap w !!! d)); [by apply IH|].
    by injection Hrun as <- <-.
Qed.

Lemma insert_Ok_inv self data cv w ids w' :
  insert uuid4 self data cv w = (Ok ids, w') →
  ∃ n1 d0 recs texts metadatas text_ids (wa wb : world Sql Vec),
    let rows := (heap w' !!!.) <$> data in
    let generated := bool_decide (dom (table_sql_schema self) ≠ dom (heap w' !!! d0)) in
    assign_ids uuid4 self data w
      = (Ok ids, World (heap w') (sql_db w) (semantic_db w) n1 (trace w))
    ∧ head data = Some d0
    ∧ insert_data (table_name self) rows (sql_db w) = (Ok tt, sql_db w')
    ∧ (if generated then query_data (reread_query self ids) [] (sql_db w') = Ok recs
       else recs = rows)
    ∧ vector_batch uuid4 self recs wa = (Ok (texts, metadatas, text_ids), wb)
    ∧ batch_insert texts metadatas (if decide (text_ids = []) then None else Some text_ids)
        (semantic_db w) = (Ok tt, semantic_db w')
    ∧ trace w' = (trace w ++ insert_calls self rows ids generated texts metadatas text_ids)%list.
Proof.
  unfold insert. intros Hrun.
  apply bind_Ok in Hrun as ([] & w0 & Hcheck & Hrun).
  assert (w0 = w) as ->.
  { destruct cv; [by apply check_rows_frame in Hcheck|by injection Hcheck]. }
  destruct (assign_ids_spec self data w) as (ids1 & h1 & n1 & Hassign & _).
  rewrite (bind_Ok_l _ _ _ _ _ Hassign) in Hrun.
  rewrite (bind_Ok_l _ _ _ _ _ (load_all_eq data _)) in Hrun. cbn [heap] in Hrun.
  apply bind_Ok in Hrun as ([] & w2 & Hwrite & Hrun).
  unfold sql_insert_data in Hwrite. cbn in Hwrite.
  destruct (insert_data (table_name self) ((h1 !!!.) <$> data) (sql_db w))
    as [[[]|e] s2] eqn:Hstore; [|done].
  injection Hwrite as <-.
  apply bind_Ok in Hrun as (generated & w3 & Hgen & Hrun).
  destruct data as [|d0 data]; [done|].
  cbv [fields_were_generated mbind M_bind load mret M_ret] in Hgen.
  injection Hgen as <- <-.
  cbn [heap] in Hrun.
  apply bind_Ok in Hrun as (recs & w4 & Hrecs & Hrun).
  apply bind_Ok in Hrun as ([[texts metadatas] text_ids] & w5 & Hbatch & Hrun).
  apply bind_Ok in Hrun as ([] & w6 & Hvec & Hrun). injection Hrun as <- <-.
  unfold semantic_batch_insert in Hvec.
  destruct (vector_batch_frame _ _ _ _ _ Hbatch) as (Hh & Hs & Hv & Ht).
  destruct (batch_insert texts metadatas _ (semantic_db (log _ w5)))
    as [[[]|e] v6] eqn:Hvstore; [|done].
  injection Hvec as <-. cbn [heap sql_db semantic_db trace log] in *.
  destruct (bool_decide (dom (table_sql_schema self) ≠ dom (h1 !!! d0))) eqn:Hg.
  - unfold sql_query_data in Hrecs. injection Hrecs as Hq <-.
    cbn [heap sql_db semantic_db trace log] in *. rewrite Hh, Hs, Ht.
    cbn [heap sql_db semantic_db trace log]. rewrite Hv in Hvstore.
    exists n1, d0, recs, texts, metadatas, text_ids. eexists _, _. rewrite Hg.
    split_and!; [done|done|done|done|exact Hbatch|done|].
    unfold insert_calls. by rewrite <- !app_assoc.
  - injection Hrecs as <- <-.
    cbn [heap sql_db semantic_db trace log] in *. rewrite Hh, Hs, Ht.
    cbn [heap sql_db semantic_db trace log]. rewrite Hv in Hvstore.
    exists n1, d0, ((h1 !!!.) <$> d0 :: data), texts, metadatas, text_ids. eexists _, _.
    rewrite Hg.
    split_and!; [done|done|done|done|exact Hbatch|done|].
    unfold insert_calls. by rewrite <- !app_assoc.
Qed.

Lemma calls_since_app w w' (l : list event) :
  trace w' = (trace w ++ l)%list → calls_since w w' = l.
Proof. unfold calls_since. intros ->. by rewrite drop_app_length. Qed.


(** C4, as the code has it.  When [insert] succeeds, the rows were read back
    from the relational store if and only if the key set of the first row,
    once the identities are assigned, differs from the key set of the bound
    schema.  Where the first row's keys are all columns of the schema, that
    is: they are a strict subset of the schema's columns. *)
Theorem insert_rereads_iff_first_row_keys_differ self data cv w ids w' :
  insert uuid4 self data cv w = (Ok ids, w') →
  ∃ d0, head data = Some d0
    ∧ (Exists (λ e, is_sql_query e = true) (calls_since w w')
       ↔ dom (heap w' !!! d0) ≠ dom (table_sql_schema self))
    ∧ (dom (heap w' !!! d0) ⊆ dom (table_sql_schema self) →
       Exists (λ e, is_sql_query e = true) (calls_since w w')
       ↔ dom (heap w' !!! d0) ⊂ dom (table_sql_schema self)).
Proof.
  intros Hrun.
  destruct (insert_Ok_inv _ _ _ _ _ _ Hrun)
    as (n1 & d0 & recs & texts & metadatas & text_ids & wa & wb
        & Hassign & Hhead & Hwrite & Hrecs & Hbatch & Hvec & Htrace).
  exists d0. split; [done|].
  assert (Exists (λ e, is_sql_query e = true) (calls_since w w')
          ↔ dom (heap w' !!! d0) ≠ dom (table_sql_schema self)) as Hiff.
  { rewrite (calls_since_app _ _ _ Htrace). unfold insert_calls.
    rewrite Exists_cons, Exists_app. cbn [is_sql_query].
    destruct (bool_decide (dom (table_sql_schema self) ≠ dom (heap w' !!! d0))) eqn:Hg.
    - apply bool_decide_eq_true in Hg. split; [congruence|].
      intros _. right. left. by apply Exists_cons_hd.
    - apply bool_decide_eq_false in Hg. split.
      + intros [?|[Hq|Hq]]; [done| |].
        * by apply Exists_nil in Hq.
        * apply Exists_cons in Hq as [?|Hq]; [done|]. by apply Exists_nil in Hq.
      + intros Hne. exfalso. apply Hg. congruence. }
  split; [exact Hiff|].
  intros Hsub. rewrite Hiff. split.
  - intros Hne. split; [done|]. intros Hsup. apply Hne. by apply (anti_symm (⊆)).
  - intros [_ Hnot] Heq. apply Hnot. by rewrite Heq.
Qed.

(** C9. When some supplied row lacks an identity and [insert] returns, one
    identity per row is returned, each a fresh draw, and every supplied
    dictionary object has been written: its identity field holds the
    identity returned at a position where the object stands in [data], and
    its other fields are as the caller left them.  Dictionaries that were
    not passed are untouched. *)
Theorem insert_writes_identities_into_rows self data cv w ids w' :
  (∃ d, d ∈ data ∧ lacks_id self (heap w !!! d) = true) →
  insert uuid4 self data cv w = (Ok ids, w') →
  List.length ids = List.length data
  ∧ (∀ d, d ∈ data →
       ∃ j n, data !! j = Some d ∧ ids !! j = Some (VStr (uuid4 n)) ∧ (entropy w ≤ n)%nat
              ∧ heap w' !!! d = <[unique_id_field self := VStr (uuid4 n)]> (heap w !!! d))
  ∧ (∀ d, d ∉ data → heap w' !!! d = heap w !!! d).
Proof.
  intros (d & Hd & Hlacks) Hrun.
  destruct (insert_Ok_inv _ _ _ _ _ _ Hrun)
    as (n1 & d0 & recs & texts & metadatas & text_ids & wa & wb & Hassign & _).
  destruct (assign_ids_spec self data w)
    as (ids1 & h1 & n1' & Hassign' & Hlen & _ & Hout & Hcases).
  rewrite Hassign in Hassign'. injection Hassign' as -> -> ->.
  destruct Hcases as [(Hall & _)|(_ & Hids & Hin)].
  { rewrite Forall_forall in Hall. specialize (Hall d Hd). congruence. }
  split_and!; [done| |done].
  intros d' Hd'. destruct (Hin d' Hd') as (j & Hj & Hheap).
  exists j, (entropy w + j). split_and!; [done| |lia|done].
  rewrite Hids, list_lookup_fmap, lookup_seq_lt by (by eapply lookup_lt_Some). done.
Qed.

(** C10. [insert] on an empty list never returns: the empty list goes to
    [insert_data], and if the store accepts it, [data[0]] in
    [fields_were_generated] raises [IndexError].  The vector store is not
    called. *)
Theorem insert_empty_raises self cv w :
  ∃ e w',
    insert uuid4 self [] cv w = (Raise e, w')
    ∧ calls_since w w' = [SqlInsert (table_name self) []]
    ∧ semantic_db w' = semantic_db w
    ∧ ((∃ s, insert_data (table_name self) [] (sql_db w) = (Ok tt, s)) → e = IndexError).
Proof.
  unfold insert.
  assert ((if cv then check_rows self [] else mret tt) w = (Ok tt, w)) as Hcheck
    by by destruct cv.
  rewrite (bind_Ok_l _ _ _ _ _ Hcheck).
  destruct (assign_ids_spec self [] w) as (ids1 & h1 & n1 & Hassign & _).
  rewrite (bind_Ok_l _ _ _ _ _ Hassign).
  rewrite (bind_Ok_l _ _ _ _ _ (load_all_eq [] _)).
  unfold mbind at 1, M_bind, sql_insert_data. cbn.
  destruct (insert_data (table_name self) [] (sql_db w)) as [[[]|e] s2] eqn:Hstore.
  - eexists _, _. split_and!; [reflexivity| | |]; cbn; [|done|done].
    by apply calls_since_app.
  - eexists _, _. split_and!; [reflexivity| | |]; cbn; [|done|].
    + by apply calls_since_app.
    + by intros [s [=]].
Qed.

(** ** [hybrid_query] (lines 252-264) *)

Lemma first_columns_spec (ids : list (list value)) w :
  Forall (λ i, i ≠ []) ids →
  first_columns ids w = (Ok ((λ i, default VNone (head i)) <$> ids), w).
Proof.
  induction 1 as [|i ids Hi _ IH]; [reflexivity|].
  cbn [first_columns]. destruct i as [|x i]; [done|].
  by rewrite (bind_Ok_l _ _ _ _ _ IH).
Qed.

(** Whatever identities the predicate admits, the vector store is asked
    once, with the membership filter over them, and its answer is the
    result. *)
Lemma hybrid_query_spec self query_text top_k cond w (ids : list (list value)) :
  query_data_tuples (hybrid_select self cond) [] (sql_db w) = Ok ids →
  Forall (λ i, i ≠ []) ids →
  let filter := WhereIn (unique_id_field self) ((λ i, default VNone (head i)) <$> ids) in
  hybrid_query self query_text top_k (Some cond) w
  = (query query_text top_k filter (semantic_db w),
     log (VecQuery query_text top_k filter) (log (SqlQuery (hybrid_select self cond) [] false) w)).
Proof.
  intros Hids Hne. cbn zeta. unfold hybrid_query.
  unfold mbind at 1, M_bind, sql_query_data_tuples. cbn [sql_db log]. rewrite Hids.
  by rewrite (bind_Ok_l _ _ _ _ _ (first_columns_spec ids _ Hne)).
Qed.

(** C2, as the code has it.  When the predicate admits no identity,
    [hybrid_query] still calls the vector store, once, with the membership
    filter over the empty list, and returns what the vector store answers;
    nothing is written. *)
Theorem hybrid_query_empty_set_still_queries self query_text top_k cond w :
  query_data_tuples (hybrid_select self cond) [] (sql_db w) = Ok [] →
  ∃ w',
    hybrid_query self query_text top_k (Some cond) w
    = (query query_text top_k (WhereIn (unique_id_field self) []) (semantic_db w), w')
    ∧ calls_since w w'
      = [SqlQuery (hybrid_select self cond) [] false;
         VecQuery query_text top_k (WhereIn (unique_id_field self) [])]
    ∧ heap w' = heap w ∧ sql_db w' = sql_db w ∧ semantic_db w' = semantic_db w.
Proof.
  intros Hids. eexists. split_and!.
  - by apply (hybrid_query_spec self query_text top_k cond w []).
  - apply calls_since_app. cbn. by rewrite <- app_assoc.
  - done.
  - done.
  - done.
Qed.

(** ** [chunk_text_for_insert] and [insert_text_in_chunks] (lines 117-123, 213-215) *)

Section chunks.
Variable text_splitter : string → Z → list string.

Lemma chunk_rows_spec self (m : row) (chunks : list string) w :
  ∃ data w1,
    chunk_rows self (Some m) chunks w = (Ok data, w1)
    ∧ (heap w1 !!!.) <$> data = (λ c, <[semantic_search_field self := VStr c]> m) <$> chunks
    ∧ (∀ d, d ∈ dom (heap w) → heap w1 !! d = heap w !! d)
    ∧ Forall (λ d, d ∉ dom (heap w)) data
    ∧ sql_db w1 = sql_db w ∧ semantic_db w1 = semantic_db w
    ∧ entropy w1 = entropy w ∧ trace w1 = trace w.
Proof.
  revert w. induction chunks as [|c chunks IH]; intros w.
  - exists [], w. by split_and!.
  - set (d := fresh (dom (heap w))).
    assert (d ∉ dom (heap w)) as Hfresh by apply is_fresh.
    set (row_c := <[semantic_search_field self := VStr c]> m).
    set (wb := World (<[d := row_c]> (heap w)) (sql_db w) (semantic_db w)
                     (entropy w) (trace w)).
    destruct (IH wb) as (data & w1 & Hrun & Hrows & Hold & Hnew & Hs & Hv & He & Ht).
    exists (d :: data), w1. split_and!.
    + cbn [chunk_rows]. unfold mbind at 1, M_bind, alloc. fold d.
      unfold mbind at 1, M_bind, set_item. cbn [heap sql_db semantic_db entropy trace].
      rewrite lookup_total_insert_eq, insert_insert_eq. fold row_c. fold wb.
      by rewrite (bind_Ok_l _ _ _ _ _ Hrun).
    + cbn [fmap list_fmap]. f_equal; [|done].
      rewrite lookup_total_alt, Hold; cbn.
      * by rewrite lookup_insert_eq.
      * rewrite dom_insert_L. apply elem_of_union_l. by apply elem_of_singleton.
    + intros d' Hd'. rewrite Hold; cbn.
      * rewrite lookup_insert_ne; [done|]. intros <-. done.
      * rewrite dom_insert_L. by apply elem_of_union_r.
    + constructor; [done|]. eapply Forall_impl; [exact Hnew|].
      cbn. intros d'. rewrite dom_insert_L. intros Hn Hin. apply Hn.
      by apply elem_of_union_r.
    + done.
    + done.
    + done.
    + done.
Qed.

(** C7, as the code has it.  [insert_text_in_chunks] looks at no key of the
    metadata.  For every metadata dictionary the chunk rows are built
    without an error: each is a new dictionary holding the metadata with the
    semantic field set to the chunk text, so a semantic value in the
    metadata is overwritten and an identity in it is carried into every
    row.  The rows then go to [insert], whose outcome is the outcome of the
    call. *)
Theorem insert_text_in_chunks_takes_any_metadata self text (m : row) n cv w :
  ∃ data w1,
    chunk_text_for_insert text_splitter self text (Some m) n w = (Ok data, w1)
    ∧ (heap w1 !!!.) <$> data
      = (λ c, <[semantic_search_field self := VStr c]> m) <$> text_splitter text n
    ∧ (∀ d, d ∈ dom (heap w) → heap w1 !! d = heap w !! d)
    ∧ sql_db w1 = sql_db w ∧ semantic_db w1 = semantic_db w ∧ trace w1 = trace w
    ∧ insert_text_in_chunks uuid4 text_splitter self text (Some m) n cv w
      = insert uuid4 self data cv w1.
Proof.
  destruct (chunk_rows_spec self m (text_splitter text n) w)
    as (data & w1 & Hrun & Hrows & Hold & _ & Hs & Hv & _ & Ht).
  exists data, w1. split_and!; [done..|].
  unfold insert_text_in_chunks, chunk_text_for_insert.
  by rewrite (bind_Ok_l _ _ _ _ _ Hrun).
Qed.

End chunks.

(** ** [get] (lines 230-233) *)

(** [get] is one [query_data] call and returns its answer: the [= ?] text
    with the identity as the one bind parameter, or the [in ?] text with
    the elements of the list or tuple as the bind parameters. *)
Lemma get_spec self (unique_id : id_arg) w :
  let '(q, params) :=
    match unique_id with
    | Scalar u =>
        ("SELECT * FROM " ++ table_name self ++ " WHERE " ++ unique_id_field self ++ " = ?",
         [u])
    | PyList us | PyTuple us =>
        ("SELECT * FROM " ++ table_name self ++ " WHERE " ++ unique_id_field self ++ " in ?",
         us)
    end in
  get self unique_id w = (query_data q params (sql_db w), log (SqlQuery q params true) w).
Proof. by destruct unique_id. Qed.

(** ** Further properties of [insert], [hybrid_query] and [get] *)

(** The identities of a successful [insert] are all supplied or all drawn:
    if no row lacks an identity, no dictionary is written and the supplied
    identities are returned in input order; if some row lacks one, the
    returned identities are fresh draws, one per row, in input order. *)
Theorem insert_identities_all_or_none self data cv w ids w' :
  insert uuid4 self data cv w = (Ok ids, w') →
  (Forall (λ d, lacks_id self (heap w !!! d) = false) data →
     heap w' = heap w ∧ ids = (λ d, (heap w !!! d) !!! unique_id_field self) <$> data)
  ∧ (Exists (λ d, lacks_id self (heap w !!! d) = true) data →
     ids = (λ k, VStr (uuid4 k)) <$> seq (entropy w) (List.length data)).
Proof.
  intros Hrun.
  destruct (insert_Ok_inv _ _ _ _ _ _ Hrun)
    as (n1 & d0 & recs & texts & metadatas & text_ids & wa & wb & Hassign & _).
  destruct (assign_ids_spec self data w)
    as (ids1 & h1 & n1' & Hassign' & _ & _ & _ & Hcases).
  rewrite Hassign in Hassign'. injection Hassign' as -> -> ->.
  destruct Hcases as [(Hall & Hheap & _ & Hids)|(Hex & Hids & _)]; split.
  - done.
  - intros Hex. apply Exists_exists in Hex as (d & Hd & Hlacks).
    rewrite Forall_forall in Hall. specialize (Hall d Hd). congruence.
  - intros Hall. apply Exists_exists in Hex as (d & Hd & Hlacks).
    rewrite Forall_forall in Hall. specialize (Hall d Hd). congruence.
  - done.
Qed.

(** With [check_validity] set and every key of every row a column of the
    schema, [insert] goes on as it does without the check. *)
Theorem insert_validation_passes self data w :
  Forall (λ d, dom (heap w !!! d) ⊆ dom (table_sql_schema self)) data →
  insert uuid4 self data true w = insert uuid4 self data false w.
Proof.
  intros Hkeys. unfold insert.
  assert (Forall (λ d, keys_in_schema self (heap w !!! d) = true) data) as Hok.
  { eapply Forall_impl; [exact Hkeys|]. intros d Hd. by apply bool_decide_eq_true. }
  by rewrite (bind_Ok_l _ _ _ _ _ (check_rows_Ok self data w Hok)).
Qed.

(** [hybrid_query] hands the vector store the identities the relational
    store returned, in their order, as the membership filter on the identity
    field, and returns the vector store's answer. *)
Theorem hybrid_query_filters_by_admitted_ids self query_text top_k cond w
    (ids : list (list value)) (ids_list : list value) :
  query_data_tuples (hybrid_select self cond) [] (sql_db w) = Ok ids →
  Forall2 (λ i x, head i = Some x) ids ids_list →
  (hybrid_query self query_text top_k (Some cond) w).1
  = query query_text top_k (WhereIn (unique_id_field self) ids_list) (semantic_db w).
Proof.
  intros Hids Hheads.
  assert (Forall (λ i, i ≠ []) ids) as Hne.
  { clear Hids. induction Hheads as [|i x ids ids_list Hi _ IH]; constructor; [|done].
    by intros ->. }
  assert (ids_list = (λ i, default VNone (head i)) <$> ids) as ->.
  { clear Hids Hne. induction Hheads as [|i x ids ids_list Hi _ IH]; [done|].
    cbn. by rewrite Hi, IH. }
  by rewrite (hybrid_query_spec self query_text top_k cond w ids Hids Hne).
Qed.

End properties.

(** * The theorems on the reference adapters *)

Lemma insert_rejects_unknown_key_witness :
  ∃ msg, model_insert documents [0] true (bound_world documents [stray_row])
         = (Raise (ValueError msg), bound_world documents [stray_row]).
Proof.
  apply (insert_rejects_unknown_key (R := vector_model.entry) model_uuid4 documents [0]
           (bound_world documents [stray_row])).
  exists 0, "colour". split_and!.
  - set_solver.
  - apply (bool_decide_unpack _). vm_compute. exact I.
  - apply (bool_decide_unpack _). vm_compute. exact I.
Defined.


Lemma insert_rereads_iff_first_row_keys_differ_witness :
  ∃ d0, head [0] = Some d0
    ∧ (Exists (λ e, is_sql_query e = true) (calls_since article_world article_world_after)
       ↔ dom (heap article_world_after !!! d0) ≠ dom (table_sql_schema articles))
    ∧ (dom (heap article_world_after !!! d0) ⊆ dom (table_sql_schema articles) →
       Exists (λ e, is_sql_query e = true) (calls_since article_world article_world_after)
       ↔ dom (heap article_world_after !!! d0) ⊂ dom (table_sql_schema articles)).
Proof.
  apply (insert_rereads_iff_first_row_keys_differ (R := vector_model.entry) model_uuid4
           articles [0] false article_world [VStr "uuid-0"]).
  vm_compute. reflexivity.
Defined.

(** C4, refuted as stated.  The one supplied row has the column [text]
    only, a strict subset of the columns [id] and [text] of the schema, and
    [insert] succeeds without reading anything back: the identity it
    assigned completed the key set. *)
Lemma insert_reread_counterexample :
  dom bare_row ⊂ dom (table_sql_schema notes)
  ∧ (model_insert notes [0] false (bound_world notes [bare_row])).1 = Ok [VStr "uuid-0"]
  ∧ ¬ Exists (λ e, is_sql_query e = true)
        (calls_since (bound_world notes [bare_row])
           (model_insert notes [0] false (bound_world notes [bare_row])).2).
Proof.
  split_and!.
  - apply (bool_decide_unpack _). vm_compute. exact I.
  - vm_compute. reflexivity.
  - apply (bool_decide_unpack _). vm_compute. exact I.
Qed.

(** A row that came with the identity ["a"] and a row without one: both
    dictionaries end up holding a drawn identity. *)
Lemma insert_writes_identities_into_rows_witness :
  List.length [VStr "uuid-0"; VStr "uuid-1"] = List.length [0; 1]
  ∧ (∀ d, d ∈ [0; 1] →
       ∃ j n, [0; 1] !! j = Some d
              ∧ [VStr "uuid-0"; VStr "uuid-1"] !! j = Some (VStr (model_uuid4 n))
              ∧ (entropy mixed_world ≤ n)%nat
              ∧ heap mixed_world_after !!! d
                = <["id" := VStr (model_uuid4 n)]> (heap mixed_world !!! d))
  ∧ (∀ d, d ∉ [0; 1] → heap mixed_world_after !!! d = heap mixed_world !!! d).
Proof.
  apply (insert_writes_identities_into_rows (R := vector_model.entry) model_uuid4
           documents [0; 1] false mixed_world [VStr "uuid-0"; VStr "uuid-1"]
           mixed_world_after).
  - exists 1. split; [set_solver|]. vm_compute. reflexivity.
  - vm_compute. reflexivity.
Defined.

Lemma hybrid_query_empty_set_still_queries_witness :
  ∃ w',
    model_hybrid_query documents "ball games" 1 (Some "tag = 'chess'") stocked_world
    = (query "ball games" 1 (WhereIn "id" []) (semantic_db stocked_world), w')
    ∧ calls_since stocked_world w'
      = [SqlQuery (hybrid_select documents "tag = 'chess'") [] false;
         VecQuery "ball games" 1 (WhereIn "id" [])]
    ∧ heap w' = heap stocked_world ∧ sql_db w' = sql_db stocked_world
    ∧ semantic_db w' = semantic_db stocked_world.
Proof.
  apply (hybrid_query_empty_set_still_queries documents "ball games" 1 "tag = 'chess'"
           stocked_world).
  vm_compute. reflexivity.
Defined.

(** C2, refuted as stated.  No row of the stocked table is tagged [chess],
    so the predicate admits no identity; [hybrid_query] calls the vector
    store all the same. *)
Lemma hybrid_query_empty_set_counterexample :
  query_data_tuples (hybrid_select documents "tag = 'chess'") [] (sql_db stocked_world)
  = Ok []
  ∧ Exists (λ e, is_vector_query e = true)
      (calls_since stocked_world
         (model_hybrid_query documents "ball games" 1 (Some "tag = 'chess'") stocked_world).2).
Proof.
  split.
  - vm_compute. reflexivity.
  - apply (bool_decide_unpack _). vm_compute. exact I.
Qed.

(** C7, refuted as stated.  The metadata sets both the identity field and
    the semantic field, and [insert_text_in_chunks] returns, validation on:
    the row it wrote carries the identity of the metadata and the chunk in
    place of the metadata's text. *)
Lemma insert_text_in_chunks_metadata_counterexample :
  loaded_metadata !! unique_id_field documents = Some (VStr "k1")
  ∧ loaded_metadata !! semantic_search_field documents = Some (VStr "mine")
  ∧ (model_insert_text_in_chunks documents "One." (Some loaded_metadata) 10 true
       (bound_world documents [])).1 = Ok [VStr "k1"]
  ∧ calls_since (bound_world documents [])
      (model_insert_text_in_chunks documents "One." (Some loaded_metadata) 10 true
         (bound_world documents [])).2
    = [SqlInsert "documents" [<["text" := VStr "One."]> loaded_metadata];
       VecInsert [VStr "One."] [delete "text" loaded_metadata] (Some [VStr "k1"])].
Proof. split_and!; vm_compute; reflexivity. Qed.

(** C1, at the failing input.  The first row came with the identity ["a"],
    the second with none: [insert] draws an identity for both, writes the
    drawn one over ["a"], and the relational store is given the new
    identities only. *)
Example insert_overwrites_supplied_identity :
  (heap mixed_world !!! 0) !! "id" = Some (VStr "a")
  ∧ (model_insert documents [0; 1] false mixed_world).1
    = Ok [VStr "uuid-0"; VStr "uuid-1"]
  ∧ (heap mixed_world_after !!! 0) !! "id" = Some (VStr "uuid-0")
  ∧ head (calls_since mixed_world mixed_world_after)
    = Some (SqlInsert "documents" [<["id" := VStr "uuid-0"]> sports_row;
                                   <["id" := VStr "uuid-1"]> cooking_row]).
Proof. split_and!; vm_compute; reflexivity. Qed.

(** C3, at the failing input.  Two rows with supplied identities, the first
    with a backslash in it, go to a table with a defaulted column.  [insert]
    succeeds and returns both identities, and both rows are in the
    relational store.  The rows are read back by a query text built from
    [repr], in which the backslash is doubled: the store finds the second row
    only, and the batch for the vector store is built from what came back.
    The first row has a relational record and no vector entry.  With one row
    whose identity holds a comma the text asks for the identity without the
    comma, nothing comes back, and the vector store gets an empty batch. *)
Example insert_reread_leaves_row_without_vector_entry :
  (model_insert articles [0; 1] false slashed_world).1 = Ok [VStr "a\b"; VStr "c"]
  ∧ calls_since slashed_world slashed_world_after
    = [SqlInsert "articles" [slashed_row; plain_row];
       SqlQuery "SELECT * FROM articles WHERE id IN ('a\\b', 'c');" [] true;
       VecInsert [VStr "y"]
         [{[ "id" := VStr "c"; "created_at" := VStr "CURRENT_TIMESTAMP" ]}]
         (Some [VStr "c"])]
  ∧ (model_get articles (Scalar (VStr "a\b")) slashed_world_after).1
    = Ok [<["created_at" := VStr "CURRENT_TIMESTAMP"]> slashed_row]
  ∧ (model_get articles (Scalar (VStr "c")) slashed_world_after).1
    = Ok [<["created_at" := VStr "CURRENT_TIMESTAMP"]> plain_row]
  ∧ vector_model.entry_id <$> semantic_db slashed_world_after = [VStr "c"]
  ∧ (model_insert articles [0] false comma_world).1 = Ok [VStr "a,b"]
  ∧ calls_since comma_world comma_world_after
    = [SqlInsert "articles" [comma_row];
       SqlQuery "SELECT * FROM articles WHERE id IN ('ab');" [] true;
       VecInsert [] [] None]
  ∧ (model_get articles (Scalar (VStr "a,b")) comma_world_after).1
    = Ok [<["created_at" := VStr "CURRENT_TIMESTAMP"]> comma_row]
  ∧ semantic_db comma_world_after = [].
Proof. split_and!; vm_compute; reflexivity. Qed.

(** C5, at the failing input of C1.  After the insert, the row supplied
    with identity ["a"] cannot be fetched under it, and the row fetched
    under the identity [insert] returned for it has another [id] than the
    one supplied. *)
Example get_after_insert_loses_supplied_identity :
  (model_get documents (Scalar (VStr "a")) mixed_world_after).1 = Ok []
  ∧ (model_get documents (Scalar (VStr "uuid-0")) mixed_world_after).1
    = Ok [<["id" := VStr "uuid-0"]> sports_row]
  ∧ keyed_sports_row !! "id" ≠ (<["id" := VStr "uuid-0"]> sports_row) !! "id".
Proof. split_and!; [vm_compute; reflexivity..|]. vm_compute. discriminate. Qed.

(** C8, at the failing input.  Both identities are in the table and each is
    found by a scalar [get]; an unknown scalar gives the empty list.  For a
    list, [get] sends the text with one [?] and the elements of the list as
    the bind parameters, which the store refuses. *)
Example get_list_is_refused :
  (model_get documents (Scalar (VStr "uuid-0")) stocked_world).1
  = Ok [<["id" := VStr "uuid-0"]> sports_row]
  ∧ (model_get documents (Scalar (VStr "uuid-7")) stocked_world).1 = Ok []
  ∧ calls_since stocked_world
      (model_get documents (PyList [VStr "uuid-0"; VStr "uuid-1"]) stocked_world).2
    = [SqlQuery "SELECT * FROM documents WHERE id in ?" [VStr "uuid-0"; VStr "uuid-1"] true]
  ∧ (model_get documents (PyList [VStr "uuid-0"; VStr "uuid-1"]) stocked_world).1
    = Raise (AdapterError "Incorrect number of bindings supplied")
  ∧ (model_get documents (PyTuple [VStr "uuid-0"]) stocked_world).1
    = Raise (AdapterError "syntax error").
Proof. split_and!; vm_compute; reflexivity. Qed.

Lemma insert_identities_all_or_none_witness :
  (Forall (λ d, lacks_id documents (heap mixed_world !!! d) = false) [0; 1] →
     heap mixed_world_after = heap mixed_world
     ∧ [VStr "uuid-0"; VStr "uuid-1"]
       = (λ d, (heap mixed_world !!! d) !!! unique_id_field documents) <$> [0; 1])
  ∧ (Exists (λ d, lacks_id documents (heap mixed_world !!! d) = true) [0; 1] →
     [VStr "uuid-0"; VStr "uuid-1"]
     = (λ k, VStr (model_uuid4 k)) <$> seq (entropy mixed_world) (List.length [0; 1])).
Proof.
  apply (insert_identities_all_or_none (R := vector_model.entry) model_uuid4
           documents [0; 1] false mixed_world [VStr "uuid-0"; VStr "uuid-1"]
           mixed_world_after).
  vm_compute. reflexivity.
Defined.

Lemma insert_validation_passes_witness :
  model_insert documents [0; 1] true (bound_world documents [sports_row; cooking_row])
  = model_insert documents [0; 1] false (bound_world documents [sports_row; cooking_row]).
Proof.
  apply (insert_validation_passes (R := vector_model.entry) model_uuid4 documents [0; 1]
           (bound_world documents [sports_row; cooking_row])).
  repeat constructor; apply (bool_decide_unpack _); vm_compute; exact I.
Defined.

Lemma hybrid_query_filters_by_admitted_ids_witness :
  (model_hybrid_query documents "ball games" 1 (Some "tag = 'sports'") stocked_world).1
  = query "ball games" 1 (WhereIn "id" [VStr "uuid-0"]) (semantic_db stocked_world).
Proof.
  apply (hybrid_query_filters_by_admitted_ids documents "ball games" 1 "tag = 'sports'"
           stocked_world [[VStr "uuid-0"]] [VStr "uuid-0"]).
  - vm_compute. reflexivity.
  - repeat constructor.
Defined.

(** For a single identity the text of the read-back query is
    [str(ids).replace(",", "")]: the comma of the one-element tuple goes, and
    so does every comma of the identity. *)
Example reread_query_single_identity :
  reread_query articles [VStr "uuid-0"] = "SELECT * FROM articles WHERE id IN ('uuid-0');"
  ∧ reread_query articles [VStr "a,b"] = "SELECT * FROM articles WHERE id IN ('ab');"
  ∧ reread_query articles [VStr "a,b"; VStr "c"]
    = "SELECT * FROM articles WHERE id IN ('a,b', 'c');".
Proof. split_and!; vm_compute; reflexivity. Qed.

(** * Further properties *)

Section failures.
Context {Sql Vec R : Type} `{!local_sql_db Sql} `{!local_semantic_db Vec R}.
Variable uuid4 : nat → string.
Implicit Types (self : semantic_sql_db) (w : world Sql Vec) (d : loc) (data : list loc).

(** ** How far a call of [insert] gets *)

(** Every way [insert] can end.  [rows] are the supplied rows once the
    identities are assigned; nothing after line 166 writes a dictionary, so
    they are read from the final heap. *)
Lemma insert_cases self data cv w res w' :
  insert uuid4 self data cv w = (res, w') →
  let rows := (heap w' !!!.) <$> data in
  let q := reread_query self in
  (* line 153 *)
  (cv = true ∧ w' = w ∧ ∃ msg, res = Raise (ValueError msg))
  ∨ ∃ ids n1 r1,
      assign_ids uuid4 self data w
        = (Ok ids, World (heap w') (sql_db w) (semantic_db w) n1 (trace w))
      ∧ insert_data (table_name self) rows (sql_db w) = (r1, sql_db w')
      ∧ head (calls_since w w') = Some (SqlInsert (table_name self) rows)
      ∧ ((* line 168 raises *)
         (∃ e, r1 = Raise e ∧ res = Raise e
               ∧ calls_since w w' = [SqlInsert (table_name self) rows]
               ∧ semantic_db w' = semantic_db w)
         (* line 172 on an empty list *)
         ∨ (r1 = Ok tt ∧ data = [] ∧ res = Raise IndexError
            ∧ calls_since w w' = [SqlInsert (table_name self) rows]
            ∧ semantic_db w' = semantic_db w)
         (* line 183 raises *)
         ∨ (r1 = Ok tt ∧ ∃ e d0,
              head data = Some d0
              ∧ dom (table_sql_schema self) ≠ dom (heap w' !!! d0)
              ∧ query_data (q ids) [] (sql_db w') = Raise e ∧ res = Raise e
              ∧ calls_since w w' = [SqlInsert (table_name self) rows; SqlQuery (q ids) [] true]
              ∧ semantic_db w' = semantic_db w)
         (* the loop of lines 189-202 raises *)
         ∨ (r1 = Ok tt ∧ ∃ (recs : list row) e d0 (wa wb : world Sql Vec),
              let generated := bool_decide (dom (table_sql_schema self) ≠ dom (heap w' !!! d0)) in
              head data = Some d0
              ∧ (if generated then query_data (q ids) [] (sql_db w') = Ok recs else recs = rows)
              ∧ vector_batch uuid4 self recs wa = (Raise e, wb) ∧ res = Raise e
              ∧ calls_since w w'
                = SqlInsert (table_name self) rows
                  :: (if generated then [SqlQuery (q ids) [] true] else [])
              ∧ semantic_db w' = semantic_db w)
         (* line 207 is reached *)
         ∨ (r1 = Ok tt ∧ ∃ (recs : list row) texts metadatas text_ids d0 r2
                           (wa wb : world Sql Vec),
              let generated := bool_decide (dom (table_sql_schema self) ≠ dom (heap w' !!! d0)) in
              let tids := if decide (text_ids = []) then None else Some text_ids in
              head data = Some d0
              ∧ (if generated then query_data (q ids) [] (sql_db w') = Ok recs else recs = rows)
              ∧ vector_batch uuid4 self recs wa = (Ok (texts, metadatas, text_ids), wb)
              ∧ batch_insert texts metadatas tids (semantic_db w) = (r2, semantic_db w')
              ∧ calls_since w w' = insert_calls self rows ids generated texts metadatas text_ids
              ∧ res = match r2 with Ok _ => Ok ids | Raise e => Raise e end)).
Proof.
  cbn zeta. unfold insert. intros Hrun.
  unfold mbind at 1, M_bind in Hrun.
  destruct ((if cv then check_rows self data else mret tt) w) as [[[]|e0] w0] eqn:Hcheck.
  2:{ left. destruct cv; [|done]. injection Hrun as <- <-.
      apply check_rows_frame in Hcheck as Hw. subst w0. split_and!; [done..|].
      destruct (decide (Forall (λ d, keys_in_schema self (heap w !!! d) = true) data))
        as [Hall|Hnot].
      - by rewrite (check_rows_Ok _ _ _ Hall) in Hcheck.
      - apply not_Forall_Exists in Hnot; [|apply _].
        destruct (check_rows_Raise self data w) as [msg Hmsg].
        { eapply Exists_impl; [exact Hnot|]. cbn. intros d Hd.
          by destruct (keys_in_schema self (heap w !!! d)). }
        rewrite Hmsg in Hcheck. injection Hcheck as <-. eauto. }
  right.
  assert (w0 = w) as ->.
  { destruct cv; [by apply check_rows_frame in Hcheck|by injection Hcheck]. }
  destruct (assign_ids_spec uuid4 self data w) as (ids & h1 & n1 & Hassign & _).
  rewrite (bind_Ok_l _ _ _ _ _ Hassign) in Hrun.
  rewrite (bind_Ok_l _ _ _ _ _
             (load_all_eq data (World h1 (sql_db w) (semantic_db w) n1 (trace w)))) in Hrun.
  cbn [heap] in Hrun.
  unfold mbind at 1, M_bind, sql_insert_data in Hrun. cbn in Hrun.
  destruct (insert_data (table_name self) ((h1 !!!.) <$> data) (sql_db w))
    as [[[]|e] s2] eqn:Hstore.
  2:{ injection Hrun as <- <-. cbn. exists ids, n1, (Raise e).
      split_and!; [done|done| |].
      - unfold calls_since. cbn. by rewrite drop_app_length.
      - left. exists e. split_and!; [done|done| |done].
        unfold calls_since. cbn. by rewrite drop_app_length. }
  unfold mbind at 1, M_bind in Hrun.
  destruct data as [|d0 data].
  { injection Hrun as <- <-. cbn. exists ids, n1, (Ok tt).
    split_and!; [done|done| |].
    - unfold calls_since. cbn. by rewrite drop_app_length.
    - right. left. split_and!; [done|done|done| |done].
      unfold calls_since. cbn. by rewrite drop_app_length. }
  cbv [fields_were_generated mbind M_bind load mret M_ret] in Hrun.
  cbn [heap] in Hrun. fold (@mbind (M Sql Vec) _) in Hrun.
  set (w2 := World h1 s2 (semantic_db w) n1
               (trace w ++ [SqlInsert (table_name self) ((h1 !!!.) <$> d0 :: data)])) in *.
  destruct (bool_decide (dom (table_sql_schema self) ≠ dom (h1 !!! d0))) eqn:Hg.
  - unfold sql_query_data in Hrun. cbn in Hrun.
    destruct (query_data (reread_query self ids) [] s2) as [recs|e] eqn:Hq.
    2:{ injection Hrun as <- <-. cbn. exists ids, n1, (Ok tt).
        split_and!; [done|done| |].
        - unfold calls_since. cbn. by rewrite <- app_assoc, drop_app_length.
        - right. right. left. split; [done|]. exists e, d0.
          apply bool_decide_eq_true in Hg. split_and!; [done|done|done|done| |done].
          unfold calls_since. cbn. by rewrite <- app_assoc, drop_app_length. }
    set (w3 := log (SqlQuery (reread_query self ids) [] true) w2) in *.
    destruct (vector_batch uuid4 self recs w3) as [[[[texts metas] tids]|e] w4] eqn:Hbatch;
      destruct (vector_batch_frame _ _ _ _ _ _ Hbatch) as (Hh & Hs & Hv & Ht).
    2:{ injection Hrun as <- <-. rewrite Hh, Hs, Hv. cbn.
        exists ids, n1, (Ok tt). split_and!; [done|done| |].
        - unfold calls_since. rewrite Ht. cbn. by rewrite <- app_assoc, drop_app_length.
        - do 3 right. left. split; [done|]. exists recs, e, d0, w3, w4.
          cbn zeta. rewrite Hg. split_and!; [done|done|by rewrite Hbatch|done| |done].
          unfold calls_since. rewrite Ht. cbn. by rewrite <- app_assoc, drop_app_length. }
    unfold semantic_batch_insert in Hrun.
    destruct (batch_insert texts metas _ (semantic_db (log _ w4))) as [r2 v5] eqn:Hvec.
    cbn [heap sql_db semantic_db entropy trace log] in Hrun, Hvec.
    rewrite Hv in Hvec. cbn in Hvec.
    exists ids, n1, (Ok tt).
    assert (heap w' = h1 ∧ sql_db w' = s2 ∧ semantic_db w' = v5
            ∧ trace w' = (trace w ++ insert_calls self ((h1 !!!.) <$> d0 :: data) ids true
                                       texts metas tids)%list
            ∧ res = match r2 with Ok _ => Ok ids | Raise e => Raise e end)
      as (Hh' & Hs' & Hv' & Ht' & Hres).
    { destruct r2 as [[]|e]; injection Hrun as <- <-; cbn; rewrite Hh, Hs, Ht; cbn;
        unfold insert_calls; by rewrite <- !app_assoc. }
    rewrite Hh', Hs'. split_and!; [done|done| |].
    + by rewrite (calls_since_app _ _ _ Ht').
    + do 4 right. split; [done|]. exists recs, texts, metas, tids, d0, r2, w3, w4.
      cbn zeta. rewrite Hv', Hg.
      split_and!; [done|done|by rewrite Hbatch|done|by apply calls_since_app|done].
  - cbv beta match zeta in Hrun.
    destruct (vector_batch uuid4 self ((h1 !!!.) <$> d0 :: data) w2)
      as [[[[texts metas] tids]|e] w4] eqn:Hbatch;
      destruct (vector_batch_frame _ _ _ _ _ _ Hbatch) as (Hh & Hs & Hv & Ht).
    2:{ injection Hrun as <- <-. rewrite Hh, Hs, Hv. cbn.
        exists ids, n1, (Ok tt). split_and!; [done|done| |].
        - unfold calls_since. rewrite Ht. cbn. by rewrite drop_app_length.
        - do 3 right. left. split; [done|].
          exists ((h1 !!!.) <$> d0 :: data), e, d0, w2, w4.
          cbn zeta. rewrite Hg. split_and!; [done|done|by rewrite Hbatch|done| |done].
          unfold calls_since. rewrite Ht. cbn. by rewrite drop_app_length. }
    unfold semantic_batch_insert in Hrun.
    destruct (batch_insert texts metas _ (semantic_db (log _ w4))) as [r2 v5] eqn:Hvec.
    cbn [heap sql_db semantic_db entropy trace log] in Hrun, Hvec.
    rewrite Hv in Hvec. cbn in Hvec.
    exists ids, n1, (Ok tt).
    assert (heap w' = h1 ∧ sql_db w' = s2 ∧ semantic_db w' = v5
            ∧ trace w' = (trace w ++ insert_calls self ((h1 !!!.) <$> d0 :: data) ids false
                                       texts metas tids)%list
            ∧ res = match r2 with Ok _ => Ok ids | Raise e => Raise e end)
      as (Hh' & Hs' & Hv' & Ht' & Hres).
    { destruct r2 as [[]|e]; injection Hrun as <- <-; cbn; rewrite Hh, Hs, Ht; cbn;
        unfold insert_calls; by rewrite <- !app_assoc. }
    rewrite Hh', Hs'. split_and!; [done|done| |].
    + by rewrite (calls_since_app _ _ _ Ht').
    + do 4 right. split; [done|].
      exists ((h1 !!!.) <$> d0 :: data), texts, metas, tids, d0, r2, w2, w4.
      cbn zeta. rewrite Hv', Hg.
      split_and!; [done|done|by rewrite Hbatch|done|by apply calls_since_app|done].
Qed.

(** ** The two writes of [insert] *)

(** When the relational store refuses the rows, [insert] ends in the
    store's exception: nothing is read back and the vector store is not
    called. *)
Theorem insert_relational_failure_stops self data cv w res w' rows e s :
  insert uuid4 self data cv w = (res, w') →
  head (calls_since w w') = Some (SqlInsert (table_name self) rows) →
  insert_data (table_name self) rows (sql_db w) = (Raise e, s) →
  res = Raise e
  ∧ calls_since w w' = [SqlInsert (table_name self) rows]
  ∧ sql_db w' = s ∧ semantic_db w' = semantic_db w.
Proof.
  intros Hrun Hhead Hstore.
  destruct (insert_cases _ _ _ _ _ _ Hrun)
    as [(_ & -> & _)|(ids & n1 & r1 & _ & Hwrite & Hhead' & Hcases)].
  { unfold calls_since in Hhead. by rewrite drop_all in Hhead. }
  rewrite Hhead in Hhead'. injection Hhead' as ->.
  rewrite Hwrite in Hstore. injection Hstore as -> ->.
  destruct Hcases as [(e' & [= <-] & -> & Hc & Hv)|[(?&_)|[(?&_)|[(?&_)|(?&_)]]]];
    done.
Qed.

(** When the vector store refuses the batch, [insert] ends in its exception
    and nothing is undone: the relational store stays as the bulk write
    left it. *)
Theorem insert_vector_failure_keeps_relational_write self data cv w res w'
    texts metadatas text_ids e v :
  insert uuid4 self data cv w = (res, w') →
  VecInsert texts metadatas text_ids ∈ calls_since w w' →
  batch_insert texts metadatas text_ids (semantic_db w) = (Raise e, v) →
  res = Raise e
  ∧ ∃ s, insert_data (table_name self) ((heap w' !!!.) <$> data) (sql_db w) = (Ok tt, s)
         ∧ sql_db w' = s
         ∧ head (calls_since w w')
           = Some (SqlInsert (table_name self) ((heap w' !!!.) <$> data)).
Proof.
  intros Hrun Hin Hvec.
  destruct (insert_cases _ _ _ _ _ _ Hrun)
    as [(_ & -> & _)|(ids & n1 & r1 & _ & Hwrite & Hhead & Hcases)].
  { unfold calls_since in Hin. rewrite drop_all in Hin. by apply elem_of_nil in Hin. }
  destruct Hcases as [(? & _ & _ & Hc & _)|[(_ & _ & _ & Hc & _)
    |[(_ & ? & ? & _ & _ & _ & _ & Hc & _)
    |[(_ & recs & ? & d0 & ? & ? & _ & _ & _ & _ & Hc & _)
     |(-> & recs & texts' & metas' & tids' & d0 & r2 & wa & wb
        & _ & _ & _ & Hvec' & Hc & ->)]]]].
  1-4: rewrite Hc in Hin;
       try match type of Hin with context [bool_decide ?P] => destruct (bool_decide P) end;
       repeat (apply elem_of_cons in Hin as [?|Hin]; [done|]); by apply elem_of_nil in Hin.
  cbn zeta in Hvec', Hc. rewrite Hc in Hin. unfold insert_calls in Hin.
  assert (VecInsert texts metadatas text_ids
          = VecInsert texts' metas' (if decide (tids' = []) then None else Some tids'))
    as [= -> -> ->].
  { destruct (bool_decide _) in Hin;
      repeat (apply elem_of_cons in Hin as [?|Hin]; [done|]); by apply elem_of_nil in Hin. }
  rewrite Hvec' in Hvec. injection Hvec as -> _. eauto.
Qed.

Lemma vector_batch_missing_value self (recs : list row) w :
  Forall (λ x : row, lacks_id self x = false) recs →
  Exists (λ x : row, x !! semantic_search_field self = None) recs →
  vector_batch uuid4 self recs w = (Raise (KeyError (semantic_search_field self)), w).
Proof.
  intros Hids. induction Hids as [|x recs Hx _ IH]; intros Hex.
  - by apply Exists_nil in Hex.
  - cbn [vector_batch]. rewrite Hx. unfold mbind at 1, M_bind. cbn.
    unfold mbind at 1, M_bind, get_item.
    destruct (x !! semantic_search_field self) as [t|] eqn:Ht; [|done]. cbn.
    apply Exists_cons in Hex as [Hex|Hex]; [congruence|].
    unfold mbind at 1, M_bind. by rewrite (IH Hex).
Qed.

(** A row without a value for the semantic field is found out only after
    the relational write.  Take rows that all carry an identity, the first
    with exactly the schema's keys, one of them without the semantic field:
    if the store accepts them, [insert] then raises [KeyError], the rows
    stay written and the vector store gets nothing. *)
Theorem insert_missing_semantic_value_after_write self d0 data w s :
  Forall (λ d, lacks_id self (heap w !!! d) = false) (d0 :: data) →
  dom (heap w !!! d0) = dom (table_sql_schema self) →
  Exists (λ d, (heap w !!! d) !! semantic_search_field self = None) (d0 :: data) →
  insert_data (table_name self) ((heap w !!!.) <$> d0 :: data) (sql_db w) = (Ok tt, s) →
  ∃ w',
    insert uuid4 self (d0 :: data) false w
    = (Raise (KeyError (semantic_search_field self)), w')
    ∧ calls_since w w' = [SqlInsert (table_name self) ((heap w !!!.) <$> d0 :: data)]
    ∧ heap w' = heap w ∧ sql_db w' = s ∧ semantic_db w' = semantic_db w.
Proof.
  intros Hids Hkeys Hmiss Hstore.
  destruct (insert uuid4 self (d0 :: data) false w) as [res w'] eqn:Hrun.
  exists w'.
  destruct (insert_cases _ _ _ _ _ _ Hrun)
    as [([=] & _)|(ids & n1 & r1 & Hassign & Hwrite & Hhead & Hcases)].
  destruct (assign_ids_spec uuid4 self (d0 :: data) w)
    as (ids' & h1 & n1' & Hassign' & _ & _ & _ & Hkind).
  rewrite Hassign in Hassign'. injection Hassign' as <- <- <-.
  destruct Hkind as [(_ & Hheap & _)|(Hex & _)].
  2:{ apply Exists_exists in Hex as (d & Hd & Hl). rewrite Forall_forall in Hids.
      specialize (Hids d Hd). congruence. }
  rewrite Hheap in *. rewrite Hwrite in Hstore. injection Hstore as -> ->.
  assert (∀ wa : world Sql Vec, vector_batch uuid4 self ((heap w !!!.) <$> d0 :: data) wa
                = (Raise (KeyError (semantic_search_field self)), wa)) as Hbatch.
  { intros wa. apply vector_batch_missing_value.
    - by apply Forall_fmap.
    - by apply Exists_fmap. }
  assert (bool_decide (dom (table_sql_schema self) ≠ dom (heap w !!! d0)) = false) as Hg.
  { apply bool_decide_eq_false. intros Hne. by apply Hne. }
  destruct Hcases as [(? & [=] & _)|[(_ & [=] & _)|[(_ & e & d1 & Hd1 & Hne & _)
    |[(_ & recs & e & d1 & wa & wb & Hd1 & Hrecs & Hb & -> & Hc & Hv)
     |(_ & recs & texts & metas & tids & d1 & r2 & wa & wb & Hd1 & Hrecs & Hb & _)]]]].
  - injection Hd1 as <-. by apply bool_decide_eq_false in Hg.
  - injection Hd1 as <-. cbn zeta in Hrecs, Hc. rewrite Hg in Hrecs, Hc. subst recs.
    rewrite Hbatch in Hb. injection Hb as <- _. by split_and!.
  - injection Hd1 as <-. cbn zeta in Hrecs. rewrite Hg in Hrecs. subst recs.
    by rewrite Hbatch in Hb.
Qed.

(** On success [insert] returns one identity for each row, none of them
    [None], and there was at least one row. *)
Theorem insert_returns_one_identity_per_row self data cv w ids w' :
  insert uuid4 self data cv w = (Ok ids, w') →
  data ≠ [] ∧ List.length ids = List.length data ∧ Forall (λ i, i ≠ VNone) ids.
Proof.
  intros Hrun.
  destruct (insert_Ok_inv _ _ _ _ _ _ _ Hrun)
    as (n1 & d0 & recs & texts & metadatas & text_ids & wa & wb & Hassign & Hhead & _).
  destruct (assign_ids_spec uuid4 self data w)
    as (ids' & h1 & n1' & Hassign' & Hlen & _ & _ & Hkind).
  rewrite Hassign in Hassign'. injection Hassign' as <- <- <-.
  split_and!; [by destruct data|done|].
  destruct Hkind as [(Hall & _ & _ & ->)|(_ & -> & _)].
  - apply Forall_fmap. eapply Forall_impl; [exact Hall|]. cbn. intros d Hd.
    unfold lacks_id in Hd. rewrite lookup_total_alt.
    by destruct ((heap w !!! d) !! unique_id_field self) as [[]|].
  - apply Forall_fmap, Forall_forall. done.
Qed.

(** ** [hybrid_query], whatever the stores answer *)

(** [hybrid_query] writes nothing, and it asks the vector store only after
    the relational store has answered with tuples that each have a first
    column: a relational exception is passed on, an empty tuple is an
    [IndexError], and in both cases the vector store is not called. *)
Theorem hybrid_query_cases self query_text top_k cond w res w' :
  hybrid_query self query_text top_k (Some cond) w = (res, w') →
  let q := hybrid_select self cond in
  heap w' = heap w ∧ sql_db w' = sql_db w ∧ semantic_db w' = semantic_db w
  ∧ ((∃ e, query_data_tuples q [] (sql_db w) = Raise e ∧ res = Raise e
           ∧ calls_since w w' = [SqlQuery q [] false])
     ∨ (∃ ids, query_data_tuples q [] (sql_db w) = Ok ids ∧ [] ∈ ids
               ∧ res = Raise IndexError ∧ calls_since w w' = [SqlQuery q [] false])
     ∨ (∃ ids ids_list,
          query_data_tuples q [] (sql_db w) = Ok ids
          ∧ Forall2 (λ i x, head i = Some x) ids ids_list
          ∧ res = query query_text top_k (WhereIn (unique_id_field self) ids_list)
                    (semantic_db w)
          ∧ calls_since w w'
            = [SqlQuery q [] false;
               VecQuery query_text top_k (WhereIn (unique_id_field self) ids_list)])).
Proof.
  cbn zeta. unfold hybrid_query. intros Hrun.
  unfold mbind at 1, M_bind, sql_query_data_tuples in Hrun. cbn [sql_db log] in Hrun.
  set (w1 := log (SqlQuery (hybrid_select self cond) [] false) w) in *.
  assert (calls_since w w1 = [SqlQuery (hybrid_select self cond) [] false]) as Hc1
    by by apply calls_since_app.
  destruct (query_data_tuples (hybrid_select self cond) [] (sql_db w)) as [ids|e] eqn:Hq.
  2:{ injection Hrun as <- <-. split_and!; [done..|]. left. eauto. }
  destruct (decide ([] ∈ ids)) as [Hin|Hnin].
  - assert (first_columns ids w1 = (Raise IndexError, w1)) as Hfc.
    { clear -Hin. induction ids as [|i ids IH]; [by apply elem_of_nil in Hin|].
      cbn [first_columns]. destruct i as [|x i]; [done|].
      apply elem_of_cons in Hin as [?|Hin]; [done|].
      unfold mbind, M_bind. by rewrite (IH Hin). }
    unfold mbind at 1, M_bind in Hrun. rewrite Hfc in Hrun. injection Hrun as <- <-.
    split_and!; [done..|]. right. left. eauto.
  - assert (Forall (λ i, i ≠ []) ids) as Hne.
    { apply Forall_forall. intros i Hi ->. done. }
    rewrite (bind_Ok_l _ _ _ _ _ (first_columns_spec ids w1 Hne)) in Hrun.
    unfold semantic_query in Hrun. injection Hrun as <- <-.
    split_and!; [done..|]. right. right.
    exists ids, ((λ i, default VNone (head i)) <$> ids). split_and!; [done| |done|].
    + clear -Hne. induction Hne as [|i ids Hi _ IH]; [constructor|].
      cbn. constructor; [|done]. by destruct i.
    + apply calls_since_app. cbn. by rewrite <- app_assoc.
Qed.

(** ** [insert_text_in_chunks], when there is nothing to insert *)

Lemma insert_nil_raises self cv w :
  ∃ e w', insert uuid4 self [] cv w = (Raise e, w')
          ∧ Forall (λ c, is_vector_insert c = false) (calls_since w w')
          ∧ semantic_db w' = semantic_db w.
Proof.
  destruct (insert uuid4 self [] cv w) as [res w'] eqn:Hrun.
  destruct (insert_cases _ _ _ _ _ _ Hrun)
    as [(_ & -> & msg & ->)|(ids & n1 & r1 & _ & _ & _ & Hcases)].
  { eexists _, _. split_and!; [done| |done]. unfold calls_since. by rewrite drop_all. }
  destruct Hcases as [(e & _ & -> & Hc & Hv)|[(_ & _ & -> & Hc & Hv)
    |[(_ & ? & ? & [=] & _)|[(_ & ? & ? & ? & ? & ? & [=] & _)
    |(_ & ? & ? & ? & ? & ? & ? & ? & ? & [=] & _)]]]].
  - eexists _, _. split_and!; [done| |done]. rewrite Hc. by repeat constructor.
  - eexists _, _. split_and!; [done| |done]. rewrite Hc. by repeat constructor.
Qed.

Section no_chunks.
Variable text_splitter : string → Z → list string.

(** A text in which the splitter finds no chunk cannot be inserted: the
    empty row list goes to [insert], which raises, whatever the metadata;
    the vector store is not called. *)
Theorem insert_text_in_chunks_no_chunk_raises self text metadata n cv w :
  text_splitter text n = [] →
  ∃ e w',
    insert_text_in_chunks uuid4 text_splitter self text metadata n cv w = (Raise e, w')
    ∧ Forall (λ c, is_vector_insert c = false) (calls_since w w')
    ∧ heap w' = heap w ∧ semantic_db w' = semantic_db w.
Proof.
  intros Hnone. unfold insert_text_in_chunks, chunk_text_for_insert. rewrite Hnone.
  cbn [chunk_rows]. rewrite (bind_Ok_l _ _ w [] w) by done.
  destruct (insert_nil_raises self cv w) as (e & w' & Hrun & Hcalls & Hv).
  exists e, w'. split_and!; [done..| |done].
  destruct (insert_cases _ _ _ _ _ _ Hrun) as [(_ & -> & _)|(ids & n1 & r1 & Ha & _)];
    [done|].
  destruct (assign_ids_spec uuid4 self [] w) as (? & h1 & ? & Ha' & _ & _ & _ & Hkind).
  rewrite Ha in Ha'. injection Ha' as _ <- _.
  destruct Hkind as [(_ & -> & _)|(Hex & _)]; [done|]. by apply Exists_nil in Hex.
Qed.

(** With [metadata] left at its default [None], [insert_text_in_chunks]
    never returns: the first chunk fails on [None[...] = c] with a
    [TypeError] before anything is called, and without a chunk the empty
    insert raises.  Neither way does the vector store get anything. *)
Theorem insert_text_in_chunks_default_metadata_raises self text n cv w :
  ∃ e w',
    insert_text_in_chunks uuid4 text_splitter self text None n cv w = (Raise e, w')
    ∧ (text_splitter text n ≠ [] → e = TypeError ∧ w' = w)
    ∧ Forall (λ c, is_vector_insert c = false) (calls_since w w')
    ∧ semantic_db w' = semantic_db w.
Proof.
  destruct (text_splitter text n) as [|c chunks] eqn:Hchunks.
  - destruct (insert_text_in_chunks_no_chunk_raises self text None n cv w Hchunks)
      as (e & w' & Hrun & Hcalls & _ & Hv).
    exists e, w'. by split_and!.
  - exists TypeError, w. split_and!; [|done| |done].
    + unfold insert_text_in_chunks, chunk_text_for_insert. by rewrite Hchunks.
    + unfold calls_since. by rewrite drop_all.
Qed.

End no_chunks.

End failures.

(** ** The commas of a single identity *)

Lemma app_String a (s t : string) : String a s ++ t = String a (s ++ t).
Proof. reflexivity. Qed.

Lemma has_char_app c (s t : string) : has_char c (s ++ t) = has_char c s || has_char c t.
Proof.
  induction s as [|a s IH]; [done|]. rewrite app_String. cbn.
  by destruct (Ascii.eqb a c).
Qed.

Lemma has_char_String c a (s : string) :
  has_char c (String a s) = Ascii.eqb a c || has_char c s.
Proof. cbn. by destruct (Ascii.eqb a c). Qed.

Lemma remove_commas_no_comma (s : string) : has_char "," (remove_commas s) = false.
Proof.
  induction s as [|a s IH]; [done|]. cbn.
  destruct (Ascii.eqb a ",") eqn:Ha; [done|]. cbn. by rewrite Ha.
Qed.

Lemma repr_chars_keeps_comma q (s : string) :
  has_char "," s = true → has_char "," (repr_chars q s) = true.
Proof.
  induction s as [|a s IH]; [done|]. cbn [has_char repr_chars]. rewrite has_char_app.
  destruct (Ascii.eqb a ",") eqn:Ha.
  - apply Ascii.eqb_eq in Ha as ->. intros _.
    assert (has_char "," (repr_char q ",") = true) as ->; [|done].
    unfold repr_char. destruct (Ascii.eqb "," q); [done|]. reflexivity.
  - intros Hs. rewrite (IH Hs). apply orb_true_r.
Qed.

Lemma string_app_inv_head (p s t : string) : p ++ s = p ++ t → s = t.
Proof.
  induction p as [|a p IH]; [done|]. rewrite !app_String. intros [= H]. by apply IH.
Qed.

(** When [insert] reads back a single row, the text it sends is
    [str(ids).replace(",", "")], in which no comma is left.  For an identity
    that holds a comma it is therefore not the query for that identity: the
    literal in the text is another one. *)
Theorem reread_query_single_identity_loses_commas (self : semantic_sql_db) (u : string) :
  has_char "," u = true →
  reread_query self [VStr u]
  ≠ "SELECT * FROM " ++ table_name self ++ " WHERE " ++ unique_id_field self
      ++ " IN (" ++ repr_str u ++ ");".
Proof.
  intros Hu. unfold reread_query. rewrite decide_True by done. intros Heq.
  do 4 apply string_app_inv_head in Heq.
  change (" IN (" ++ repr_str u ++ ");") with (" IN " ++ ("(" ++ repr_str u ++ ");")) in Heq.
  apply string_app_inv_head in Heq.
  assert (has_char "," (remove_commas (str_tuple [VStr u]) ++ ";") = false) as Hno.
  { by rewrite has_char_app, remove_commas_no_comma. }
  rewrite Heq in Hno. unfold repr_str in Hno.
  repeat (rewrite has_char_app in Hno || rewrite app_String in Hno
          || rewrite has_char_String in Hno).
  rewrite (repr_chars_keeps_comma _ u Hu) in Hno.
  destruct (Ascii.eqb (if has_char squote u && negb (has_char dquote u)
                       then dquote else squote) ",") in Hno;
    cbn in Hno; discriminate.
Qed.

(** * The chat agent *)

(** ** [split_messages_into_pairs] *)

Lemma has_role_inj r r' m : has_role r m → has_role r' m → r = r'.
Proof. unfold has_role. intros -> [= ->]. done. Qed.

Lemma split_loop_shape (ms : list message) tu ts pairs :
  (∀ u, tu = Some u → has_role "user" u) →
  (∀ m, ts = Some m → has_role "system" m) →
  split_loop ms tu ts = Ok pairs →
  Forall well_formed_turn pairs
  ∧ (λ p : turn, p.2) <$> pairs `sublist_of` ms
  ∧ Forall (λ p : turn, p.1.2 ∈ ms ∨ tu = Some p.1.2) pairs.
Proof.
  revert tu ts pairs. induction ms as [|entry ms IH]; intros tu ts pairs Htu Hts Hrun.
  - injection Hrun as <-. by split_and!.
  - cbn [split_loop] in Hrun.
    destruct (item entry "role") as [role|] eqn:Hrole; [|done].
    assert (∀ tu' ts' pairs',
              (∀ u, tu' = Some u → has_role "user" u) →
              (∀ m, ts' = Some m → has_role "system" m) →
              (∀ u, tu' = Some u → u = entry ∨ tu = Some u) →
              split_loop ms tu' ts' = Ok pairs' →
              Forall well_formed_turn pairs'
              ∧ (λ p : turn, p.2) <$> pairs' `sublist_of` entry :: ms
              ∧ Forall (λ p : turn, p.1.2 ∈ entry :: ms ∨ tu = Some p.1.2) pairs') as Hstep.
    { intros tu' ts' pairs' Htu' Hts' Hfrom Hrun'.
      destruct (IH _ _ _ Htu' Hts' Hrun') as (Hwf & Hsub & Husers).
      split_and!; [done|by apply sublist_cons|].
      eapply Forall_impl; [exact Husers|]. cbn. intros p [Hin|Heq].
      - left. by apply elem_of_cons; right.
      - destruct (Hfrom _ Heq) as [->|?]; [left; apply elem_of_cons; by left|by right]. }
    destruct (decide (role = VStr "system")) as [->|Hns].
    { apply (Hstep tu (Some entry) pairs); [done| |by right|done]. by intros m [= <-]. }
    destruct (decide (role = VStr "user")) as [->|Hnu].
    { apply (Hstep (Some entry) ts pairs); [|done| |done].
      - by intros u [= <-].
      - intros u [= <-]. by left. }
    destruct tu as [u|]; [|apply (Hstep None ts pairs); done].
    destruct (bool_decide (role = VStr "assistant") && truthy (Some u)) eqn:Hpair;
      [|apply (Hstep (Some u) ts pairs); [done|done|by right|done]].
    apply andb_true_iff in Hpair as [Hrole' _]. apply bool_decide_eq_true in Hrole' as ->.
    destruct (split_loop ms None None) as [pairs'|e] eqn:Hrest; [|done].
    injection Hrun as <-.
    destruct (IH None None pairs') as (Hwf & Hsub & Husers); [done..|].
    split_and!.
    + constructor; [|done]. unfold well_formed_turn. cbn. by split_and!; [..|apply Htu|].
    + cbn. by apply sublist_skip.
    + constructor; [by right|]. eapply Forall_impl; [exact Husers|]. cbn.
      intros p [Hin|?]; [|done]. left. by apply elem_of_cons; right.
Qed.

(** The pairs are what the docstring promises: in each, the second entry is
    a user message of the history, the third an assistant message, the first
    a system message or [None]; and the assistant messages of the pairs come
    in the order of the history, each at most once. *)
Theorem split_messages_into_pairs_shape (ms : list message) pairs :
  split_messages_into_pairs ms = Ok pairs →
  Forall well_formed_turn pairs
  ∧ (λ p : turn, p.2) <$> pairs `sublist_of` ms
  ∧ Forall (λ p : turn, p.1.2 ∈ ms) pairs.
Proof.
  intros Hrun. destruct (split_loop_shape ms None None pairs) as (Hwf & Hsub & Husers);
    [done..|].
  split_and!; [done..|]. eapply Forall_impl; [exact Husers|]. cbn. by intros p [?|?].
Qed.

(** A history made of well-formed pairs, one after the other, is split into
    exactly these pairs. *)
Theorem split_messages_into_pairs_of_turns (turns : list turn) :
  Forall well_formed_turn turns →
  split_messages_into_pairs (List.concat (turn_messages <$> turns)) = Ok turns.
Proof.
  unfold split_messages_into_pairs. induction 1 as [|[[s u] a] turns Hwf _ IH]; [done|].
  destruct Hwf as (Hs & Hu & Ha). cbn in Hs, Hu, Ha. cbn [fmap list_fmap List.concat].
  unfold turn_messages at 1. cbn [fst snd].
  assert (∀ ts, split_loop ((u :: a :: List.concat (turn_messages <$> turns))) None ts
                = Ok ((ts, u, a) :: turns)) as Htail.
  { intros ts. cbn [split_loop]. unfold has_role in Hu, Ha. rewrite Hu.
    rewrite decide_False by done. rewrite decide_True by done.
    rewrite Ha. rewrite decide_False by done. rewrite decide_False by done.
    rewrite bool_decide_eq_true_2 by done.
    assert (truthy (Some u) = true) as ->; [by destruct u|]. cbn. by rewrite IH. }
  destruct s as [m|].
  - change (option_list (Some m)) with [m]. rewrite <- app_assoc. cbn [app split_loop].
    specialize (Hs m eq_refl). unfold has_role in Hs. rewrite Hs.
    rewrite decide_True by done. apply Htail.
  - change (option_list (@None message)) with (@nil message). rewrite <- app_assoc.
    apply Htail.
Qed.

(** The only way [split_messages_into_pairs] fails is an entry without a
    role, and such an entry always makes it fail. *)
Theorem split_messages_into_pairs_raises (ms : list message) :
  match split_messages_into_pairs ms with
  | Ok _ => Forall (λ m, is_Some (item m "role")) ms
  | Raise e => e = KeyError "role" ∧ Exists (λ m, item m "role" = None) ms
  end.
Proof.
  unfold split_messages_into_pairs. generalize (@None message) at 1 as tu.
  generalize (@None message) as ts.
  induction ms as [|entry ms IH]; intros ts tu; [by cbn|].
  cbn [split_loop]. destruct (item entry "role") as [role|] eqn:Hrole.
  2:{ split; [done|]. by apply Exists_cons_hd. }
  assert (∀ tu' ts', match split_loop ms tu' ts' with
                     | Ok _ => Forall (λ m, is_Some (item m "role")) (entry :: ms)
                     | Raise e => e = KeyError "role"
                                  ∧ Exists (λ m, item m "role" = None) (entry :: ms)
                     end) as Hstep.
  { intros tu' ts'. specialize (IH ts' tu'). destruct (split_loop ms tu' ts').
    - constructor; [by rewrite Hrole|done].
    - destruct IH. split; [done|]. by apply Exists_cons_tl. }
  destruct (decide (role = VStr "system")); [apply Hstep|].
  destruct (decide (role = VStr "user")); [apply Hstep|].
  destruct tu as [u|]; [|apply Hstep].
  destruct (bool_decide (role = VStr "assistant") && truthy (Some u)); [|apply Hstep].
  specialize (Hstep None None). by destruct (split_loop ms None None).
Qed.

Lemma split_loop_trailing (ms : list message) m r tu ts :
  item m "role" = Some r → r ≠ VStr "assistant" →
  split_loop (ms ++ [m]) tu ts = split_loop ms tu ts.
Proof.
  intros Hr Hna. revert tu ts. induction ms as [|entry ms IH]; intros tu ts.
  - cbn. rewrite Hr. repeat case_decide; try done. destruct tu; [|done].
    by rewrite bool_decide_eq_false_2.
  - cbn [app split_loop]. destruct (item entry "role"); [|done]. by rewrite !IH.
Qed.

(** A last message that is not an assistant's reply changes nothing: a
    question still unanswered, or a closing system message, is in no
    pair. *)
Theorem split_messages_into_pairs_unanswered (ms : list message) m r :
  item m "role" = Some r → r ≠ VStr "assistant" →
  split_messages_into_pairs (ms ++ [m]) = split_messages_into_pairs ms.
Proof. intros Hr Hna. by apply (split_loop_trailing ms m r). Qed.

(** ** [words_in_messages] *)

Lemma split_at_length c (s cur : string) :
  List.length (split_at c s cur) = List.length (split_at c s EmptyString).
Proof.
  revert cur. induction s as [|a s IH]; intros cur; [done|]. cbn [split_at].
  destruct (Ascii.eqb a c); [done|].
  rewrite (IH (cur ++ String a EmptyString)). symmetry. apply IH.
Qed.

Lemma pieces_app (s t : string) : pieces (s ++ " " ++ t) = pieces s + pieces t.
Proof.
  unfold pieces. induction s as [|a s IH].
  - done.
  - rewrite app_String. cbn [split_at]. destruct (Ascii.eqb a " ").
    + cbn [List.length]. by rewrite IH.
    + cbn [String.append]. by rewrite !(split_at_length _ _ (String a EmptyString)).
Qed.

Lemma pieces_join (x : string) (l : list string) :
  pieces (join " " (x :: l)) = sum_list (pieces <$> x :: l).
Proof.
  revert x. induction l as [|y l IH]; intros x.
  - cbn. unfold pieces. lia.
  - change (join " " (x :: y :: l)) with (x ++ " " ++ join " " (y :: l)).
    rewrite pieces_app, IH. done.
Qed.

(** [words_in_messages] is the sum, over the messages that have a content,
    of the pieces [split(" ")] cuts the content into, an empty content
    counting one; for a history without any content it is one, not zero. *)
Theorem words_in_messages_sum (ms : list message) (l : list string) :
  contents ms = VStr <$> l →
  words_in_messages ms
  = Ok (Z.of_nat (if decide (l = []) then 1 else sum_list (pieces <$> l))).
Proof.
  intros Hl. unfold words_in_messages, extract_messages_content. rewrite Hl.
  assert (strings (VStr <$> l) = Ok l) as ->.
  { clear. induction l as [|x l IH]; [done|]. cbn. by rewrite IH. }
  destruct l as [|x l]; [done|]. rewrite decide_False by done.
  fold (pieces (join " " (x :: l))). by rewrite pieces_join.
Qed.

(** ** The methods that talk to the model and to the memory *)

Section agent_properties.
Context {L Sql Vec R : Type}.
Context `{!chat_completions L} `{!local_sql_db Sql} `{!local_semantic_db Vec R}.
Variable encode : string → outcome (list Z).
Variable uuid4 : nat → string.
Implicit Types (aw : agent_world L Sql Vec) (ms : list message).

Lemma abind_Ok_l {A B} (m : AM L Sql Vec A) (f : A → AM L Sql Vec B) aw a aw1 :
  m aw = (Ok a, aw1) → (m ≫= f) aw = f a aw1.
Proof. unfold mbind, AM_bind. by intros ->. Qed.

Lemma abind_Raise_l {A B} (m : AM L Sql Vec A) (f : A → AM L Sql Vec B) aw e aw1 :
  m aw = (Raise e, aw1) → (m ≫= f) aw = (Raise e, aw1).
Proof. unfold mbind, AM_bind. by intros ->. Qed.

(** The count is additive: a message more adds the tokens of its
    content. *)
Lemma count_loop_snoc ms m c (t n : Z) :
  count_loop encode ms 0 = Ok t → item m "content" = Some c →
  token_count encode c = Ok n →
  count_loop encode (ms ++ [m]) 0 = Ok (t + n)%Z.
Proof.
  intros Ht Hc Hn. revert t Ht. generalize 0%Z.
  induction ms as [|m0 ms IH]; intros k t; cbn [app count_loop].
  - intros [= <-]. by rewrite Hc, Hn.
  - destruct (item m0 "content") as [c0|]; [|done].
    destruct (token_count encode c0) as [n0|e]; [|done]. apply IH.
Qed.

(** Over the limit with [summary_size] left at [None], the default:
    [send_message] ends in the [TypeError] of [refresh_session].  The
    question is not recorded, the model is not asked, the memory is not
    touched. *)
Theorem send_message_over_limit_without_summary_size user_message aw (n t : Z) :
  token_count encode (VStr user_message) = Ok n →
  count_loop encode (messages (agent aw)) 0 = Ok t →
  (t + n > token_limit (agent aw))%Z →
  summary_size (agent aw) = None →
  ∃ aw',
    send_message encode uuid4 user_message aw = (Raise TypeError, aw')
    ∧ agent aw' = agent aw ∧ client aw' = client aw ∧ memory aw' = memory aw
    ∧ stdout aw'
      = app (stdout aw) [String.append "CURRENT TOKENS USED: " (pretty t);
                      String.append "MAX TOKENS: " (pretty (token_limit (agent aw)));
                      "ABOUT TO GO OVER TOKEN LIMIT"].
Proof.
  intros Hn Ht Hover Hsize. unfold send_message.
  rewrite (abind_Ok_l _ _ aw n aw) by (unfold from_outcome; by rewrite Hn).
  rewrite (abind_Ok_l _ _ aw t aw)
    by (unfold count_tokens, from_outcome, get_agent, mbind, AM_bind; by rewrite Ht).
  rewrite (abind_Ok_l _ _ aw (agent aw) aw) by done.
  unfold mbind at 1, AM_bind, print at 1. cbn [agent client memory stdout clock].
  unfold mbind at 1, AM_bind, print at 1. cbn [agent client memory stdout clock].
  rewrite bool_decide_eq_true_2 by done.
  eexists. split.
  - apply abind_Raise_l. unfold mbind at 1, AM_bind, print at 1.
    cbn [agent client memory stdout clock].
    apply abind_Raise_l. unfold refresh_session.
    unfold mbind at 1, AM_bind, get_agent. cbn [agent]. rewrite Hsize.
    apply abind_Raise_l. reflexivity.
  - cbn. rewrite <- !app_assoc. by split_and!.
Qed.

(** Under the limit [send_message] does not refresh: it records the
    question, asks the model once with the history and the question, which
    together are within the limit, and records and returns the reply.  If
    the model call raises, the question stays in the history and nothing
    else changed. *)
Theorem send_message_within_limit user_message aw (n t : Z) r l' :
  token_count encode (VStr user_message) = Ok n →
  count_loop encode (messages (agent aw)) 0 = Ok t →
  (t + n ≤ token_limit (agent aw))%Z →
  let question := new_message "user" (VStr user_message) in
  create (model (agent aw)) (messages (agent aw) ++ [question])%list (client aw) = (r, l') →
  ∃ aw',
    send_message encode uuid4 user_message aw = (r, aw')
    ∧ messages (agent aw')
      = (messages (agent aw) ++ question
           :: match r with
              | Ok ai_message => [new_message "assistant" ai_message]
              | Raise _ => []
              end)%list
    ∧ count_loop encode (messages (agent aw) ++ [question])%list 0 = Ok (t + n)%Z
    ∧ client aw' = l' ∧ memory aw' = memory aw
    ∧ model (agent aw') = model (agent aw)
    ∧ token_limit (agent aw') = token_limit (agent aw)
    ∧ primary_directive (agent aw') = primary_directive (agent aw)
    ∧ summary_size (agent aw') = summary_size (agent aw).
Proof.
  intros Hn Ht Hwithin question Hreply. unfold send_message.
  rewrite (abind_Ok_l _ _ aw n aw) by (unfold from_outcome; by rewrite Hn).
  rewrite (abind_Ok_l _ _ aw t aw)
    by (unfold count_tokens, from_outcome, get_agent, mbind, AM_bind; by rewrite Ht).
  rewrite (abind_Ok_l _ _ aw (agent aw) aw) by done.
  unfold mbind at 1, AM_bind, print at 1. cbn [agent client memory stdout clock].
  unfold mbind at 1, AM_bind, print at 1. cbn [agent client memory stdout clock].
  rewrite bool_decide_eq_false_2 by lia.
  cbv [mbind AM_bind mret AM_ret append_message get_agent set_messages chat].
  cbn [agent client memory stdout clock model messages token_limit primary_directive
       summary_size].
  fold question. rewrite Hreply.
  destruct r as [ai_message|e]; eexists; (split; [reflexivity|]); cbn;
    rewrite <- ?app_assoc; split_and!; try done;
    by apply (count_loop_snoc _ _ (VStr user_message)).
Qed.

(** *** Counting tokens *)

(** [is_within_token_limit()] and [tokens_left()] agree: the history is
    within the limit exactly when no fewer than zero tokens are left, and
    one raises whenever the other does, with the same exception. *)
Theorem is_within_token_limit_iff_tokens_left aw :
  match tokens_left encode aw with
  | (Ok remaining, aw') =>
      aw' = aw
      ∧ is_within_token_limit encode None aw = (Ok (bool_decide (0 ≤ remaining)%Z), aw)
  | (Raise e, aw') =>
      aw' = aw ∧ is_within_token_limit encode None aw = (Raise e, aw)
  end.
Proof.
  unfold tokens_left, is_within_token_limit, count_tokens.
  cbv [mbind AM_bind mret AM_ret get_agent from_outcome]. cbn [default].
  destruct (count_loop encode (messages (agent aw)) 0) as [t|e]; [|done].
  split; [done|]. do 2 f_equal. apply bool_decide_ext. lia.
Qed.

(** [count_tokens] reads [message["content"]] of every message, where
    [extract_messages_content] skips the messages without one: a message
    without content makes the count, and with it [send_message], raise a
    [KeyError], before anything is printed, recorded or sent. *)
Theorem send_message_needs_content user_message aw ms m ms' (n : Z) :
  token_count encode (VStr user_message) = Ok n →
  messages (agent aw) = (ms ++ m :: ms')%list →
  Forall (λ x, ∃ c k, item x "content" = Some c ∧ token_count encode c = Ok k) ms →
  item m "content" = None →
  send_message encode uuid4 user_message aw = (Raise (KeyError "content"), aw)
  ∧ extract_messages_content (messages (agent aw)) = extract_messages_content (ms ++ ms')%list.
Proof.
  intros Hn Hms Hall Hm. split.
  - unfold send_message.
    rewrite (abind_Ok_l _ _ aw n aw) by (unfold from_outcome; by rewrite Hn).
    apply abind_Raise_l. unfold count_tokens.
    rewrite (abind_Ok_l _ _ aw (agent aw) aw) by done.
    unfold from_outcome. f_equal. rewrite Hms. clear Hms. generalize 0%Z.
    induction Hall as [|x ms (c & k & Hc & Hk) _ IH]; intros z; cbn [app count_loop].
    + by rewrite Hm.
    + rewrite Hc, Hk. apply IH.
  - rewrite Hms. unfold extract_messages_content.
    assert (contents (ms ++ m :: ms') = contents (ms ++ ms')) as ->; [|done].
    clear Hms Hall. induction ms as [|x ms IH]; cbn [app contents].
    + by rewrite Hm.
    + by rewrite IH.
Qed.

(** *** Filing the conversation *)

Lemma conversation_rows_spec (pairs : list turn) (current_time : string)
    (w : world Sql Vec) :
  ∃ data w1,
    conversation_rows pairs current_time w = (Ok data, w1)
    ∧ (heap w1 !!!.) <$> data = conversation_row current_time <$> pairs
    ∧ NoDup data
    ∧ (∀ d, d ∈ dom (heap w) → heap w1 !! d = heap w !! d)
    ∧ Forall (λ d, d ∉ dom (heap w)) data
    ∧ sql_db w1 = sql_db w ∧ semantic_db w1 = semantic_db w
    ∧ entropy w1 = entropy w ∧ trace w1 = trace w.
Proof.
  revert w. induction pairs as [|p pairs IH]; intros w.
  - exists [], w. split_and!; try done. constructor.
  - set (d := fresh (dom (heap w))).
    assert (d ∉ dom (heap w)) as Hfresh by apply is_fresh.
    set (wb := World (<[d := conversation_row current_time p]> (heap w)) (sql_db w)
                     (semantic_db w) (entropy w) (trace w)).
    destruct (IH wb) as (data & w1 & Hrun & Hrows & Hnodup & Hold & Hnew & Hs & Hv & He & Ht).
    assert (d ∈ dom (heap wb)) as Hd.
    { cbn. rewrite dom_insert_L. apply elem_of_union_l. by apply elem_of_singleton. }
    exists (d :: data), w1. split_and!.
    + cbn [conversation_rows]. unfold mbind at 1, M_bind, alloc. fold d.
      fold (conversation_row current_time p). fold wb.
      by rewrite (bind_Ok_l _ _ _ _ _ Hrun).
    + cbn [fmap list_fmap]. f_equal; [|done].
      rewrite lookup_total_alt, Hold by done. cbn. by rewrite lookup_insert_eq.
    + constructor; [|done]. intros Hin.
      by apply (proj1 (Forall_forall _ _) Hnew) in Hin.
    + intros d' Hd'. rewrite Hold; cbn.
      * rewrite lookup_insert_ne; [done|]. by intros <-.
      * rewrite dom_insert_L. by apply elem_of_union_r.
    + constructor; [done|]. eapply Forall_impl; [exact Hnew|].
      cbn. intros d'. rewrite dom_insert_L. intros Hn Hin. apply Hn.
      by apply elem_of_union_r.
    + by rewrite Hs.
    + by rewrite Hv.
    + by rewrite He.
    + by rewrite Ht.
Qed.

(** The loop of lines 189-202 goes through when every record has an
    identity and a semantic value. *)
Lemma vector_batch_total (self : semantic_sql_db) (recs : list row) (w : world Sql Vec) :
  Forall (λ x : row, lacks_id self x = false) recs →
  Forall (λ x : row, is_Some (x !! semantic_search_field self)) recs →
  vector_batch uuid4 self recs w
  = (Ok ((.!!! semantic_search_field self) <$> recs,
         delete (semantic_search_field self) <$> recs,
         (.!!! unique_id_field self) <$> recs), w).
Proof.
  intros Hids Hsem.
  destruct (vector_batch uuid4 self recs w) as [[out|e] w'] eqn:Hrun.
  - by destruct (vector_batch_Ok uuid4 _ _ _ _ _ Hids Hrun) as (-> & _ & ->).
  - exfalso. revert w e w' Hrun.
    induction Hids as [|x recs Hx _ IH]; intros w e w' Hrun; [done|].
    apply Forall_cons in Hsem as [[t Ht] Hsem].
    cbn [vector_batch] in Hrun. rewrite Hx in Hrun.
    unfold mbind at 1, M_bind in Hrun. cbn in Hrun.
    unfold mbind at 1, M_bind, get_item in Hrun. rewrite Ht in Hrun. cbn in Hrun.
    unfold mbind at 1, M_bind in Hrun.
    destruct (vector_batch uuid4 self recs w) as [[out|e'] w''] eqn:Hrest.
    + revert Hrun. cbn. unfold lacks_id in Hx.
      destruct (x !! unique_id_field self); [|done]. by destruct out as [[??]?].
    + by eapply IH.
Qed.

(** Rows that each got the identity of their position. *)
Lemma rows_by_position (data : list loc) (h h' : gmap loc row) (f : nat → row → row) :
  NoDup data →
  (∀ d, d ∈ data → ∃ j, data !! j = Some d ∧ h' !!! d = f j (h !!! d)) →
  (h' !!!.) <$> data = imap f ((h !!!.) <$> data).
Proof.
  intros Hnodup Hrows. apply list_eq. intros i.
  rewrite list_lookup_fmap, list_lookup_imap, list_lookup_fmap.
  destruct (data !! i) as [d|] eqn:Hd; [|done]. cbn. f_equal.
  destruct (Hrows d) as (j & Hj & ->); [by eapply list_elem_of_lookup_2|].
  by rewrite (NoDup_lookup _ _ _ _ Hnodup Hj Hd).
Qed.

(** A history with at least one completed exchange, on stores that accept
    the two writes: [save_current_conversation_to_memory] files one row per
    exchange, under a newly drawn identity, with the printed exchange as the
    text and the one time stamp.  It writes the relational store once and
    the vector store once and reads nothing back; the history is left as it
    is. *)
Theorem save_current_conversation_files_every_pair aw (pairs : list turn) s v :
  let n0 := entropy (memory aw) in
  let ids := (λ k, VStr (uuid4 k)) <$> seq n0 (List.length pairs) in
  let rows := imap (λ k p, <["id" := VStr (uuid4 (n0 + k))]> (conversation_row (clock aw) p))
                   pairs in
  let texts := (λ p, VStr (repr_turn p)) <$> pairs in
  let metadatas := delete "conversation" <$> rows in
  split_messages_into_pairs (messages (agent aw)) = Ok pairs →
  pairs ≠ [] →
  insert_data "conversations" rows (sql_db (memory aw)) = (Ok tt, s) →
  batch_insert texts metadatas (Some ids) (semantic_db (memory aw)) = (Ok tt, v) →
  ∃ aw',
    save_current_conversation_to_memory uuid4 aw = (Ok ids, aw')
    ∧ calls_since (memory aw) (memory aw')
      = [SqlInsert "conversations" rows; VecInsert texts metadatas (Some ids)]
    ∧ sql_db (memory aw') = s ∧ semantic_db (memory aw') = v
    ∧ agent aw' = agent aw ∧ client aw' = client aw.
Proof.
  intros n0 ids rows texts metadatas Hpairs Hne Hwrite Hbatch.
  unfold save_current_conversation_to_memory.
  rewrite (abind_Ok_l _ _ aw (agent aw) aw) by done.
  rewrite (abind_Ok_l _ _ aw pairs aw) by (unfold from_outcome; by rewrite Hpairs).
  rewrite (abind_Ok_l _ _ aw (clock aw) aw) by done.
  unfold in_memory.
  destruct (conversation_rows_spec pairs (clock aw) (memory aw))
    as (data & w1 & Hrows & Hheap & Hnodup & _ & _ & Hs & Hv & He & Ht).
  rewrite (bind_Ok_l _ _ _ _ _ Hrows).
  destruct (insert uuid4 conversations data false w1) as [res mw] eqn:Hrun.
  assert (List.length data = List.length pairs) as Hlen.
  { by rewrite <- (length_fmap (heap w1 !!!.) data), Hheap, length_fmap. }
  destruct (insert_cases uuid4 _ _ _ _ _ _ Hrun)
    as [([=] & _)|(ids1 & n1 & r1 & Hassign & Hw & _ & Hcases)].
  destruct (assign_ids_spec uuid4 conversations data w1)
    as (ids2 & h' & n & Hassign2 & _ & Hhave & _ & Hor).
  rewrite Hassign2 in Hassign. injection Hassign as -> -> ->.
  destruct Hor as [(Hall & _)|(_ & -> & Hnew)].
  { exfalso. destruct pairs as [|p pairs]; [done|]. destruct data as [|d data]; [done|].
    apply Forall_cons in Hall as [Hd _]. injection Hheap as Hd0 _.
    rewrite Hd0 in Hd. by vm_compute in Hd. }
  assert ((heap mw !!!.) <$> data = rows) as Hrowseq.
  { rewrite (rows_by_position data (heap w1) (heap mw)
               (λ j r, <["id" := VStr (uuid4 (entropy w1 + j))]> r) Hnodup Hnew).
    rewrite Hheap, imap_fmap, He. done. }
  assert (Forall (λ x : row, dom (table_sql_schema conversations) = dom x
                             ∧ lacks_id conversations x = false
                             ∧ is_Some (x !! "conversation")) rows) as Hshape.
  { apply Forall_lookup. intros i x Hx.
    apply list_lookup_imap_Some in Hx as (p & _ & ->). split_and!.
    - unfold conversations, conversation_row. cbn [table_sql_schema].
      by rewrite !dom_insert_L, !dom_singleton_L.
    - unfold lacks_id. cbn [unique_id_field conversations]. by rewrite lookup_insert_eq.
    - rewrite lookup_insert_ne by done. unfold conversation_row.
      rewrite lookup_insert_eq. by eexists. }
  rewrite Hlen, He in Hcases. fold n0 in Hcases. fold ids in Hcases.
  change (table_name conversations) with "conversations" in *.
  rewrite Hrowseq, Hs in Hw. rewrite Hwrite in Hw. injection Hw as Hr1 Hsql.
  subst r1. rewrite Hrowseq in Hcases.
  assert (∀ d0, head data = Some d0 →
            dom (table_sql_schema conversations) = dom (heap mw !!! d0)) as Hdom.
  { intros d0 Hd0. destruct data as [|d data]; [done|]. injection Hd0 as ->.
    destruct rows as [|x rows'] eqn:Hr; [done|]. injection Hrowseq as -> _.
    by apply Forall_cons in Hshape as [[? _] _]. }
  destruct Hcases as [(e & [=] & _)|[(_ & -> & _)|[(_ & e & d0 & Hd0 & Hdiff & _)
    |[(_ & recs & e & d0 & wa & wb & Hd0 & Hrecs & Hloop & _)
    |(_ & recs & texts' & metadatas' & text_ids & d0 & r2 & wa & wb
        & Hd0 & Hrecs & Hloop & Hvec & Hcalls & ->)]]]].
  - by destruct pairs.
  - by apply Hdom in Hd0.
  - rewrite bool_decide_eq_false_2 in Hrecs by (intros Hdiff; by apply Hdiff, Hdom).
    subst recs. rewrite vector_batch_total in Hloop; [done| |].
    + eapply Forall_impl; [exact Hshape|]. by intros x (_ & ? & _).
    + eapply Forall_impl; [exact Hshape|]. by intros x (_ & _ & ?).
  - rewrite bool_decide_eq_false_2 in Hrecs, Hcalls by (intros Hdiff; by apply Hdiff, Hdom).
    subst recs. rewrite vector_batch_total in Hloop.
    2:{ eapply Forall_impl; [exact Hshape|]. by intros x (_ & ? & _). }
    2:{ eapply Forall_impl; [exact Hshape|]. by intros x (_ & _ & ?). }
    injection Hloop as <- <- <- _.
    assert (lookup_total "conversation" <$> rows = texts) as Htexts.
    { unfold rows, texts. rewrite fmap_imap, <- imap_const. apply imap_ext.
      intros i p _. cbn. rewrite lookup_total_insert_ne by done.
      unfold conversation_row. by rewrite lookup_total_insert_eq. }
    assert (lookup_total "id" <$> rows = ids) as Hids.
    { unfold rows, ids. rewrite fmap_imap, <- imap_seq. apply imap_ext.
      intros i p _. cbn. by rewrite lookup_total_insert_eq. }
    rewrite Htexts, Hids in Hvec, Hcalls. fold metadatas in Hvec, Hcalls.
    assert (ids ≠ []) as Hsome.
    { unfold ids. destruct pairs; [done|]. by cbn. }
    unfold insert_calls in Hcalls. rewrite decide_False in Hvec, Hcalls by done.
    rewrite Hv, Hbatch in Hvec. injection Hvec as <- Hvec.
    unfold calls_since in Hcalls. rewrite Ht in Hcalls.
    eexists. split; [reflexivity|]. cbn [memory agent client]. by split_and!.
Qed.

Lemma save_current_conversation_frame aw res aw' :
  save_current_conversation_to_memory uuid4 aw = (res, aw') →
  agent aw' = agent aw ∧ client aw' = client aw.
Proof.
  unfold save_current_conversation_to_memory. rewrite (abind_Ok_l _ _ aw (agent aw) aw) by done.
  unfold mbind at 1, AM_bind, from_outcome.
  destruct (split_messages_into_pairs (messages (agent aw))) as [pairs|e];
    [|by intros [= <- <-]].
  rewrite (abind_Ok_l _ _ aw (clock aw) aw) by done. unfold in_memory.
  match goal with |- context [let '(_, _) := ?m in _] => destruct m as [r mw] end.
  by intros [= <- <-].
Qed.

(** A history without a completed exchange (empty, a directive only, an
    unanswered question): [save_current_conversation_to_memory] raises,
    because it hands [insert] the empty list.  The vector store is not
    written and the history is left as it is. *)
Theorem save_current_conversation_without_pair_raises aw :
  split_messages_into_pairs (messages (agent aw)) = Ok [] →
  ∃ e aw',
    save_current_conversation_to_memory uuid4 aw = (Raise e, aw')
    ∧ agent aw' = agent aw ∧ client aw' = client aw
    ∧ Forall (λ c, is_vector_insert c = false) (calls_since (memory aw) (memory aw'))
    ∧ semantic_db (memory aw') = semantic_db (memory aw).
Proof.
  intros Hpairs.
  destruct (insert_nil_raises uuid4 conversations false (memory aw))
    as (e & mw & Hrun & Hcalls & Hv).
  exists e, (AgentWorld (agent aw) (client aw) mw (stdout aw) (clock aw)).
  split_and!; try done.
  unfold save_current_conversation_to_memory.
  rewrite (abind_Ok_l _ _ aw (agent aw) aw) by done.
  rewrite (abind_Ok_l _ _ aw [] aw) by (unfold from_outcome; by rewrite Hpairs).
  rewrite (abind_Ok_l _ _ aw (clock aw) aw) by done.
  unfold in_memory. cbn [conversation_rows].
  rewrite (bind_Ok_l _ _ (memory aw) [] (memory aw)) by done. by rewrite Hrun.
Qed.

(** *** Refreshing the session *)

Lemma refresh_session_summary aw (n : Z) r l' :
  summary_size (agent aw) = Some n →
  create (model (agent aw))
    (messages (agent aw) ++ [new_message "user" (VStr (summary_prompt (pretty n)))])%list
    (client aw) = (r, l') →
  (match summary_size (agent aw) with
   | None => throw TypeError
   | Some _ => summarize_current_conversation None
   end) aw
  = (r, AgentWorld (agent aw) l' (memory aw) (stdout aw) (clock aw)).
Proof.
  intros Hsize Hreply. rewrite Hsize.
  unfold summarize_current_conversation, side_message.
  rewrite (abind_Ok_l _ _ aw (agent aw) aw) by done.
  rewrite (abind_Ok_l _ _ aw (agent aw) aw) by done.
  rewrite Hsize. unfold chat. cbn [from_option]. by rewrite Hreply.
Qed.

(** With [summary_size] set, a summary obtained and the conversation filed,
    [refresh_session] leaves as history the primary directive, if one is
    set, followed by one system message with the summary; the directive and
    the other settings are kept. *)
Theorem refresh_session_replaces_history aw (n : Z) summary l' ids aw2 :
  summary_size (agent aw) = Some n →
  create (model (agent aw))
    (messages (agent aw) ++ [new_message "user" (VStr (summary_prompt (pretty n)))])%list
    (client aw) = (Ok summary, l') →
  save_current_conversation_to_memory uuid4
    (AgentWorld (agent aw) l' (memory aw) (stdout aw) (clock aw)) = (Ok ids, aw2) →
  ∃ aw',
    refresh_session uuid4 aw = (Ok tt, aw')
    ∧ messages (agent aw')
      = (directive_messages (agent aw)
         ++ [new_message "system"
               (VStr (String.append "The following has been previously discussed ... "
                                    (py_str summary)))])%list
    ∧ memory aw' = memory aw2 ∧ client aw' = l'
    ∧ model (agent aw') = model (agent aw)
    ∧ token_limit (agent aw') = token_limit (agent aw)
    ∧ primary_directive (agent aw') = primary_directive (agent aw)
    ∧ summary_size (agent aw') = summary_size (agent aw).
Proof.
  intros Hsize Hreply Hsave.
  destruct (save_current_conversation_frame _ _ _ Hsave) as [Ha Hc]. cbn in Ha, Hc.
  unfold refresh_session. rewrite (abind_Ok_l _ _ aw (agent aw) aw) by done.
  rewrite (abind_Ok_l _ _ _ _ _ (refresh_session_summary aw n _ _ Hsize Hreply)).
  rewrite (abind_Ok_l _ _ _ _ _ Hsave).
  unfold mbind at 1, AM_bind, set_messages at 1.
  unfold mbind at 1, AM_bind, set_primary_directive, get_agent.
  unfold mbind at 1, AM_bind. cbn [agent primary_directive]. rewrite Ha.
  unfold add_context, directive_messages. rewrite app_String. cbn [nonempty default].
  destruct (primary_directive (agent aw)) as [[|c p]|] eqn:Hp; cbn [nonempty].
  - eexists. split; [reflexivity|]. cbn. by rewrite Hc.
  - eexists. split; [reflexivity|]. cbn. by rewrite Hc.
  - eexists. split; [reflexivity|]. cbn. by rewrite Hc.
Qed.

(** With [summary_size] set but no completed exchange in the history (the
    directive alone can fill the limit), [refresh_session] raises after the
    model has been asked for the summary: the history is not replaced. *)
Theorem refresh_session_without_pair_raises aw (n : Z) summary l' :
  summary_size (agent aw) = Some n →
  split_messages_into_pairs (messages (agent aw)) = Ok [] →
  create (model (agent aw))
    (messages (agent aw) ++ [new_message "user" (VStr (summary_prompt (pretty n)))])%list
    (client aw) = (Ok summary, l') →
  ∃ e aw',
    refresh_session uuid4 aw = (Raise e, aw')
    ∧ agent aw' = agent aw ∧ client aw' = l'
    ∧ semantic_db (memory aw') = semantic_db (memory aw).
Proof.
  intros Hsize Hpairs Hreply.
  destruct (save_current_conversation_without_pair_raises
              (AgentWorld (agent aw) l' (memory aw) (stdout aw) (clock aw)) Hpairs)
    as (e & aw' & Hsave & Ha & Hc & _ & Hv).
  exists e, aw'. split_and!; try done.
  unfold refresh_session. rewrite (abind_Ok_l _ _ aw (agent aw) aw) by done.
  rewrite (abind_Ok_l _ _ _ _ _ (refresh_session_summary aw n _ _ Hsize Hreply)).
  by rewrite (abind_Raise_l _ _ _ _ _ Hsave).
Qed.

End agent_properties.

(** * The further properties on concrete runs *)

Lemma insert_relational_failure_stops_witness :
  (model_insert documents [0] false stray_world).1 = Raise (AdapterError "no such column")
  ∧ calls_since stray_world stray_world_after
    = [SqlInsert "documents" [<["id" := VStr "uuid-0"]> stray_row]]
  ∧ sql_db stray_world_after = sql_db stray_world
  ∧ semantic_db stray_world_after = semantic_db stray_world.
Proof.
  apply (insert_relational_failure_stops (R := vector_model.entry) model_uuid4
           documents [0] false stray_world _ stray_world_after
           [<["id" := VStr "uuid-0"]> stray_row] (AdapterError "no such column")
           (sql_db stray_world)).
  - vm_compute. reflexivity.
  - vm_compute. reflexivity.
  - vm_compute. reflexivity.
Defined.

Lemma insert_vector_failure_keeps_relational_write_witness :
  offline_insert.1 = Raise (AdapterError "vector store offline")
  ∧ ∃ s, insert_data "documents" ((heap offline_insert.2 !!!.) <$> [0]) (sql_db offline_world)
         = (Ok tt, s)
         ∧ sql_db offline_insert.2 = s
         ∧ head (calls_since offline_world offline_insert.2)
           = Some (SqlInsert "documents" ((heap offline_insert.2 !!!.) <$> [0])).
Proof.
  apply (insert_vector_failure_keeps_relational_write
           (local_semantic_db0 := offline_vector_store) model_uuid4
           documents [0] false offline_world offline_insert.1 offline_insert.2
           [VStr "A about sports"] [delete "text" complete_sports_row] (Some [VStr "a"])
           (AdapterError "vector store offline") tt).
  - vm_compute. reflexivity.
  - vm_compute. apply list_elem_of_further, list_elem_of_here.
  - vm_compute. reflexivity.
Defined.

Lemma insert_missing_semantic_value_after_write_witness :
  ∃ w',
    model_insert memos [0; 1] false memo_world = (Raise (KeyError "text"), w')
    ∧ calls_since memo_world w' = [SqlInsert "memos" ((heap memo_world !!!.) <$> [0; 1])]
    ∧ heap w' = heap memo_world
    ∧ sql_db w'
      = (relational_model.model_insert_data "memos" [memo_row; blank_memo_row]
           (sql_db memo_world)).2
    ∧ semantic_db w' = semantic_db memo_world.
Proof.
  apply (insert_missing_semantic_value_after_write (R := vector_model.entry) model_uuid4
           memos 0 [1] memo_world).
  - repeat constructor.
  - apply (bool_decide_unpack _). vm_compute. exact I.
  - apply Exists_cons_tl, Exists_cons_hd. vm_compute. reflexivity.
  - vm_compute. reflexivity.
Defined.

Lemma insert_returns_one_identity_per_row_witness :
  [0; 1] ≠ []
  ∧ List.length [VStr "uuid-0"; VStr "uuid-1"] = List.length [0; 1]
  ∧ Forall (λ i, i ≠ VNone) [VStr "uuid-0"; VStr "uuid-1"].
Proof.
  apply (insert_returns_one_identity_per_row (R := vector_model.entry) model_uuid4
           documents [0; 1] true (bound_world documents [sports_row; cooking_row])
           [VStr "uuid-0"; VStr "uuid-1"] stocked_world).
  vm_compute. reflexivity.
Defined.

Lemma hybrid_query_cases_witness :
  heap stocked_query.2 = heap stocked_world
  ∧ sql_db stocked_query.2 = sql_db stocked_world
  ∧ semantic_db stocked_query.2 = semantic_db stocked_world
  ∧ ((∃ e, query_data_tuples (hybrid_select documents "tag = 'sports'") []
             (sql_db stocked_world) = Raise e
           ∧ stocked_query.1 = Raise e
           ∧ calls_since stocked_world stocked_query.2
             = [SqlQuery (hybrid_select documents "tag = 'sports'") [] false])
     ∨ (∃ ids, query_data_tuples (hybrid_select documents "tag = 'sports'") []
                 (sql_db stocked_world) = Ok ids
               ∧ [] ∈ ids
               ∧ stocked_query.1 = Raise IndexError
               ∧ calls_since stocked_world stocked_query.2
                 = [SqlQuery (hybrid_select documents "tag = 'sports'") [] false])
     ∨ (∃ ids ids_list,
          query_data_tuples (hybrid_select documents "tag = 'sports'") []
            (sql_db stocked_world) = Ok ids
          ∧ Forall2 (λ i x, head i = Some x) ids ids_list
          ∧ stocked_query.1
            = query "ball games" 1 (WhereIn (unique_id_field documents) ids_list)
                (semantic_db stocked_world)
          ∧ calls_since stocked_world stocked_query.2
            = [SqlQuery (hybrid_select documents "tag = 'sports'") [] false;
               VecQuery "ball games" 1 (WhereIn (unique_id_field documents) ids_list)])).
Proof.
  apply (hybrid_query_cases (R := vector_model.entry) documents "ball games" 1
           "tag = 'sports'" stocked_world stocked_query.1 stocked_query.2).
  vm_compute. reflexivity.
Defined.

Lemma insert_text_in_chunks_no_chunk_raises_witness :
  ∃ e w',
    model_insert_text_in_chunks documents "" (Some sports_row) 10 false
      (bound_world documents [])
    = (Raise e, w')
    ∧ Forall (λ c, is_vector_insert c = false) (calls_since (bound_world documents []) w')
    ∧ heap w' = heap (bound_world documents [])
    ∧ semantic_db w' = semantic_db (bound_world documents []).
Proof.
  apply (insert_text_in_chunks_no_chunk_raises (R := vector_model.entry) model_uuid4
           chunker_model.model_text_splitter documents "" (Some sports_row) 10 false
           (bound_world documents [])).
  vm_compute. reflexivity.
Defined.

Lemma reread_query_single_identity_loses_commas_witness :
  reread_query articles [VStr "a,b"]
  ≠ "SELECT * FROM " ++ table_name articles ++ " WHERE " ++ unique_id_field articles
      ++ " IN (" ++ repr_str "a,b" ++ ");".
Proof.
  apply (reread_query_single_identity_loses_commas articles "a,b"). reflexivity.
Defined.

Lemma split_messages_into_pairs_shape_witness :
  Forall well_formed_turn [greeting_turn]
  ∧ (λ p : turn, p.2) <$> [greeting_turn] `sublist_of` greeting_history
  ∧ Forall (λ p : turn, p.1.2 ∈ greeting_history) [greeting_turn].
Proof.
  apply (split_messages_into_pairs_shape greeting_history [greeting_turn]). reflexivity.
Defined.

Lemma split_messages_into_pairs_of_turns_witness :
  split_messages_into_pairs
    (List.concat (turn_messages <$> [greeting_turn; (None, question_message, answer_message)]))
  = Ok [greeting_turn; (None, question_message, answer_message)].
Proof.
  apply (split_messages_into_pairs_of_turns
           [greeting_turn; (None, question_message, answer_message)]).
  repeat constructor; cbn; try reflexivity.
  - intros m [= <-]. reflexivity.
  - intros m [=].
Defined.

Lemma split_messages_into_pairs_unanswered_witness :
  split_messages_into_pairs (greeting_history ++ [question_message])
  = split_messages_into_pairs greeting_history.
Proof.
  apply (split_messages_into_pairs_unanswered greeting_history question_message (VStr "user")).
  - reflexivity.
  - discriminate.
Defined.

Lemma words_in_messages_sum_witness :
  words_in_messages greeting_history
  = Ok (Z.of_nat (if decide (["Be brief."; "hi"; "hello"] = [])
                  then 1 else sum_list (pieces <$> ["Be brief."; "hi"; "hello"]))).
Proof.
  apply (words_in_messages_sum greeting_history ["Be brief."; "hi"; "hello"]). reflexivity.
Defined.

Lemma send_message_over_limit_without_summary_size_witness :
  ∃ aw',
    model_send_message "how are you today?" crowded_agent = (Raise TypeError, aw')
    ∧ agent aw' = agent crowded_agent ∧ client aw' = client crowded_agent
    ∧ memory aw' = memory crowded_agent
    ∧ stdout aw'
      = app (stdout crowded_agent)
            [String.append "CURRENT TOKENS USED: " (pretty 16%Z);
             String.append "MAX TOKENS: " (pretty (token_limit (agent crowded_agent)));
             "ABOUT TO GO OVER TOKEN LIMIT"].
Proof.
  apply (send_message_over_limit_without_summary_size (R := vector_model.entry)
           char_tokens model_uuid4 "how are you today?" crowded_agent 18 16).
  - reflexivity.
  - reflexivity.
  - vm_compute. reflexivity.
  - reflexivity.
Defined.

Lemma send_message_within_limit_witness :
  ∃ aw',
    model_send_message "how are you today?" roomy_agent
    = (Ok (VStr "reply to 4 messages"), aw')
    ∧ messages (agent aw')
      = (greeting_history
           ++ [new_message "user" (VStr "how are you today?");
               new_message "assistant" (VStr "reply to 4 messages")])%list
    ∧ count_loop char_tokens
        (greeting_history ++ [new_message "user" (VStr "how are you today?")])%list 0
      = Ok (16 + 18)%Z
    ∧ client aw' = 1 ∧ memory aw' = memory roomy_agent
    ∧ model (agent aw') = model (agent roomy_agent)
    ∧ token_limit (agent aw') = token_limit (agent roomy_agent)
    ∧ primary_directive (agent aw') = primary_directive (agent roomy_agent)
    ∧ summary_size (agent aw') = summary_size (agent roomy_agent).
Proof.
  apply (send_message_within_limit (R := vector_model.entry) char_tokens model_uuid4
           "how are you today?" roomy_agent 18 16 (Ok (VStr "reply to 4 messages")) 1).
  - reflexivity.
  - reflexivity.
  - vm_compute. discriminate.
  - vm_compute. reflexivity.
Defined.

Lemma send_message_needs_content_witness :
  model_send_message "hello" gappy_agent = (Raise (KeyError "content"), gappy_agent)
  ∧ extract_messages_content (messages (agent gappy_agent))
    = extract_messages_content ([question_message] ++ [])%list.
Proof.
  apply (send_message_needs_content (R := vector_model.entry) char_tokens model_uuid4
           "hello" gappy_agent [question_message] [("role", VStr "system")] [] 5).
  - reflexivity.
  - reflexivity.
  - repeat constructor. exists (VStr "hi"), 2%Z. by split.
  - reflexivity.
Defined.

Lemma save_current_conversation_files_every_pair_witness :
  ∃ aw',
    model_save roomy_agent = (Ok [VStr "uuid-0"], aw')
    ∧ calls_since (memory roomy_agent) (memory aw')
      = [SqlInsert "conversations"
           [<["id" := VStr "uuid-0"]> (conversation_row "2024-05-01 12:00:00" greeting_turn)];
         VecInsert [VStr (repr_turn greeting_turn)]
           [delete "conversation"
              (<["id" := VStr "uuid-0"]>
                 (conversation_row "2024-05-01 12:00:00" greeting_turn))]
           (Some [VStr "uuid-0"])]
    ∧ sql_db (memory aw') = sql_db (memory (model_save roomy_agent).2)
    ∧ semantic_db (memory aw') = semantic_db (memory (model_save roomy_agent).2)
    ∧ agent aw' = agent roomy_agent ∧ client aw' = client roomy_agent.
Proof.
  apply (save_current_conversation_files_every_pair (R := vector_model.entry) model_uuid4
           roomy_agent [greeting_turn]
           (sql_db (memory (model_save roomy_agent).2))
           (semantic_db (memory (model_save roomy_agent).2))).
  - reflexivity.
  - discriminate.
  - vm_compute. reflexivity.
  - vm_compute. reflexivity.
Defined.

Lemma save_current_conversation_without_pair_raises_witness :
  ∃ e aw',
    model_save new_agent = (Raise e, aw')
    ∧ agent aw' = agent new_agent ∧ client aw' = client new_agent
    ∧ Forall (λ c, is_vector_insert c = false)
        (calls_since (memory new_agent) (memory aw'))
    ∧ semantic_db (memory aw') = semantic_db (memory new_agent).
Proof.
  apply (save_current_conversation_without_pair_raises (R := vector_model.entry) model_uuid4
           new_agent).
  reflexivity.
Defined.

Lemma refresh_session_replaces_history_witness :
  ∃ aw',
    model_refresh_session summarising_agent = (Ok tt, aw')
    ∧ messages (agent aw')
      = (directive_messages (agent summarising_agent)
         ++ [new_message "system"
               (VStr (String.append "The following has been previously discussed ... "
                                    (py_str (VStr "reply to 4 messages"))))])%list
    ∧ memory aw' = memory (model_save summarising_agent).2 ∧ client aw' = 1
    ∧ model (agent aw') = model (agent summarising_agent)
    ∧ token_limit (agent aw') = token_limit (agent summarising_agent)
    ∧ primary_directive (agent aw') = primary_directive (agent summarising_agent)
    ∧ summary_size (agent aw') = summary_size (agent summarising_agent).
Proof.
  apply (refresh_session_replaces_history (R := vector_model.entry) model_uuid4
           summarising_agent 50 (VStr "reply to 4 messages") 1 [VStr "uuid-0"]
           (AgentWorld (agent summarising_agent) 1 (memory (model_save summarising_agent).2)
                       (stdout summarising_agent) (clock summarising_agent))).
  - reflexivity.
  - vm_compute. reflexivity.
  - vm_compute. reflexivity.
Defined.

Lemma refresh_session_without_pair_raises_witness :
  ∃ e aw',
    model_refresh_session new_agent = (Raise e, aw')
    ∧ agent aw' = agent new_agent ∧ client aw' = 1
    ∧ semantic_db (memory aw') = semantic_db (memory new_agent).
Proof.
  apply (refresh_session_without_pair_raises (R := vector_model.entry) model_uuid4
           new_agent 50 (VStr "reply to 2 messages") 1).
  - reflexivity.
  - reflexivity.
  - vm_compute. reflexivity.
Defined.
